(** * Verification of the jQuery postMessage plugin (src/js/jquery.postMessage.js)

    Shallow embedding of the plugin: origin matching ([isOriginMatch]),
    window-path search ([transverseLevel], [serializeWindowReference]),
    the sender ([$.postMessage]) and the receiver ([$.receiveMessage] and
    [window.__receiveMessageHook]). *)

From Stdlib Require Import String Ascii List ZArith Bool Lia.
From Stdlib Require Import Numbers.DecimalString.
Import ListNotations.
Open Scope string_scope.

(* ------------------------------------------------------------------ *)
(** ** JavaScript values used by the plugin *)

(** An origin as the plugin sees it: a string, or [undefined]. *)
Definition js_origin := option string.

(** Truthiness of a string-or-undefined value ([!x] in the source). *)
Definition truthy_str (v : option string) : bool :=
  match v with
  | None => false
  | Some s => negb (String.eqb s "")
  end.

(** Allow-rule values that [$.receiveMessage] / [isOriginMatch] can be
    given.  A function rule is the JS function's truthiness on its
    argument. *)
Inductive allow_rule :=
  | RString (s : string)
  | RFunction (f : js_origin -> bool)
  | RNumber (z : Z)
  | RNaN
  | RBoolean (b : bool)
  | RRegExp (src : string)
  | RObject
  | RNull
  | RUndefined.

(** [typeof(x) == "string"] *)
Definition is_string_rule (r : allow_rule) : bool :=
  match r with RString _ => true | _ => false end.

(** [$.isFunction(x)]: jQuery.type(x) === "function"; a RegExp has type
    "regexp". *)
Definition is_function_rule (r : allow_rule) : bool :=
  match r with RFunction _ => true | _ => false end.

(** [!allowedOriginOrFunction] *)
Definition rule_falsy (r : allow_rule) : bool :=
  match r with
  | RString s => String.eqb s ""
  | RNumber z => Z.eqb z 0
  | RNaN => true
  | RBoolean b => negb b
  | RNull | RUndefined => true
  | RFunction _ | RRegExp _ | RObject => false
  end.

(** Strict equality [a !== b] between a string and an origin value. *)
Definition origin_eqb (o : js_origin) (s : string) : bool :=
  match o with Some s' => String.eqb s' s | None => false end.

(* ------------------------------------------------------------------ *)
(** ** isOriginMatch (lines 92-107) *)

Definition isOriginMatch (originPatternOrFunction : allow_rule)
  (sourceOrigin : js_origin) : bool :=
  match originPatternOrFunction with
  | RString pat =>
      if negb (origin_eqb sourceOrigin pat) && negb (String.eqb pat "*")
      then false else true
  | RFunction f => if negb (f sourceOrigin) then false else true
  | _ => true
  end.

(* ------------------------------------------------------------------ *)
(** ** Window graph *)

(** Windows are compared by identity only ([===]); a window is named by
    a number.  [parent] of a top-level window is the window itself;
    [opener] is [null] unless the window was opened by script. *)
Definition win := nat.

(** Reading a property of a window from script: a window, another value,
    or an exception carrying the given [number] ([None]: no [number], as
    outside IE). *)
Inductive js_read :=
  | ReadWindow (w : win)
  | ReadOther
  | ReadThrows (number : option Z).

(** One step of [for (var frame in window.frames)]: an enumerated key
    with what [window.frames[frame]] reads, or the enumeration itself
    throwing.  [window.frames] is the window itself, so the keys are the
    frame indices and also its named and global properties. *)
Inductive forin_step :=
  | ForInKey (key : string) (value : js_read)
  | ForInThrows (number : option Z).

(** Value of [window.frames[0] instanceof Window], tested with the
    [Window] constructor of the script's own global.  A frame's window
    belongs to another global, so in standards browsers the test is
    false for every child frame. *)
Inductive instanceof_result :=
  | IsWindow
  | NotWindow
  | InstanceofThrows (number : option Z).

Record window_graph := {
  frames : win -> list win;                    (* window.frames[0 .. length-1] *)
  frames_forin : win -> list forin_step;       (* for-in over window.frames *)
  frame0_instanceof_Window : win -> instanceof_result;
  parent : win -> option win;
  opener : win -> option win
}.

(** A JavaScript number as [level] can hold it: [undefined] when the
    argument is not passed, [NaN] after [undefined + 1]. *)
Inductive js_level :=
  | LUndefined
  | LNum (n : Z)
  | LNaN.

(** [level >= 4]: comparisons with [undefined] or [NaN] are false. *)
Definition level_ge4 (l : js_level) : bool :=
  match l with LNum n => Z.leb 4 n | _ => false end.

(** [level + 1] *)
Definition level_succ (l : js_level) : js_level :=
  match l with LNum n => LNum (n + 1) | _ => LNaN end.

Definition string_of_nat (n : nat) : string :=
  NilEmpty.string_of_uint (Nat.to_uint n).

Definition win_is (o : option win) (t : win) : bool :=
  match o with Some w => Nat.eqb w t | None => false end.

(** The for-in steps of a window whose only enumerable keys are its frame
    indices ["0"], ["1"], ... *)
Fixpoint index_keys_from (fs : list win) (i : nat) : list forin_step :=
  match fs with
  | [] => []
  | f :: fs' => ForInKey (string_of_nat i) (ReadWindow f) :: index_keys_from fs' (S i)
  end.

Definition index_keys (fs : list win) : list forin_step := index_keys_from fs 0.

(** [e.number !== n] is false exactly for an exception whose [number] is
    [n]. *)
Definition number_is (number : option Z) (n : Z) : bool :=
  match number with Some m => Z.eqb m n | None => false end.

(** "Access is denied" and "'...' is undefined" in IE. *)
Definition E_ACCESSDENIED : Z := -2147024891.
Definition E_UNDEFINED : Z := -2146823279.

(** Outcome of the direct frame check. *)
Inductive frame_scan :=
  | FrameFound (key : string)
  | FrameNotFound
  | FrameThrows (number : option Z).

(** Body of the inner [try] for one key:
    [window.frames[0] instanceof Window && window.frames[frame] === target];
    [inr n] is an exception with [number] [n]. *)
Definition frame_key_test (guard : instanceof_result) (value : js_read) (target : win)
  : bool + option Z :=
  match guard with
  | NotWindow => inl false
  | InstanceofThrows n => inr n
  | IsWindow =>
    match value with
    | ReadWindow w => inl (Nat.eqb w target)
    | ReadOther => inl false
    | ReadThrows n => inr n
    end
  end.

(** The [for (var frame in window.frames)] loop (lines 123-138): an
    exception of the inner [try] is swallowed when its [number] is
    E_ACCESSDENIED and re-thrown otherwise; [FrameThrows] is an exception
    leaving the loop. *)
Fixpoint forin_frames (guard : instanceof_result) (steps : list forin_step)
  (target : win) : frame_scan :=
  match steps with
  | [] => FrameNotFound
  | ForInThrows n :: _ => FrameThrows n
  | ForInKey key value :: steps' =>
    match frame_key_test guard value target with
    | inl true => FrameFound key
    | inl false => forin_frames guard steps' target
    | inr n =>
        if number_is n E_ACCESSDENIED then forin_frames guard steps' target
        else FrameThrows n
    end
  end.

(** Lines 119-148: the loop runs when [window.frames.length > 0]; the
    outer [catch] swallows an exception whose [number] is E_UNDEFINED and
    re-throws any other. *)
Definition direct_frame_check (g : window_graph) (window target : win) : frame_scan :=
  if Nat.ltb 0 (List.length (frames g window)) then
    match forin_frames (frame0_instanceof_Window g window) (frames_forin g window) target with
    | FrameThrows n => if number_is n E_UNDEFINED then FrameNotFound else FrameThrows n
    | r => r
    end
  else FrameNotFound.

(** The result of a call that may recurse without bound: [OutOfFuel]
    stands for a search that has not returned after the given number of
    nested calls (in a browser, a stack overflow); [Raised n] is an
    exception with [number] [n] propagating out of the call. *)
Inductive run (A : Type) :=
  | OutOfFuel
  | Raised (number : option Z)
  | Done (a : A).
Arguments OutOfFuel {A}.
Arguments Raised {A} number.
Arguments Done {A} a.

(** ** transverseLevel (lines 117-199)

    The result [Done None] is the source's [return false]. *)
Fixpoint transverseLevel (fuel : nat) (g : window_graph) (window target : win)
  (level : js_level) : run (option string) :=
  match fuel with
  | O => OutOfFuel
  | S fuel' =>
    match direct_frame_check g window target with
    | FrameFound frame => Done (Some ("f," ++ frame))
    | FrameThrows n => Raised n
    | FrameNotFound =>
    if win_is (parent g window) target then Done (Some "p") else
    if win_is (opener g window) target then Done (Some "o") else
    if level_ge4 level then Done None else
    (* for (var i = 0; i < window.frames.length; i++) *)
    let fix frames_loop (fs : list win) (i : nat) : run (option string) :=
      match fs with
      | [] => Done None
      | f :: fs' =>
        match transverseLevel fuel' g f target (level_succ level) with
        | OutOfFuel => OutOfFuel
        | Raised n => Raised n
        | Done (Some ref) => Done (Some ("f," ++ string_of_nat i ++ "." ++ ref))
        | Done None => frames_loop fs' (S i)
        end
      end in
    match frames_loop (frames g window) 0 with
    | OutOfFuel => OutOfFuel
    | Raised n => Raised n
    | Done (Some ref) => Done (Some ref)
    | Done None =>
    let parent_step :=
      match parent g window with
      | Some p =>
        if negb (Nat.eqb p window) then
          match transverseLevel fuel' g p target (level_succ level) with
          | OutOfFuel => OutOfFuel
          | Raised n => Raised n
          | Done (Some ref) => Done (Some ("p." ++ ref))
          | Done None => Done None
          end
        else Done None
      | None => Done None
      end in
    match parent_step with
    | OutOfFuel => OutOfFuel
    | Raised n => Raised n
    | Done (Some ref) => Done (Some ref)
    | Done None =>
      match opener g window with
      | Some o =>
        if negb (Nat.eqb o window) then
          match transverseLevel fuel' g o target (level_succ level) with
          | OutOfFuel => OutOfFuel
          | Raised n => Raised n
          | Done (Some ref) => Done (Some ("o" ++ ref))
          | Done None => Done None
          end
        else Done None
      | None => Done None
      end
    end
    end
    end
  end.

(** Errors thrown by the plugin (and by the platform under it). *)
Inductive pm_error :=
  | ErrMissingOrigin      (* "targetHost argument was not supplied ..." *)
  | ErrMissingTarget      (* "No targetWindow specified" *)
  | ErrSelfReference      (* "Trying to postMessage to self. ..." *)
  | ErrUnresolvable       (* "Couldn't serialize window reference" *)
  | ErrStackOverflow      (* RangeError: unbounded recursion *)
  | ErrNative (number : option Z) (* native failure, re-thrown *)
  | ErrSearch (number : option Z) (* exception re-thrown by the frame check *)
  | ErrURI                (* URIError from decodeURIComponent *)
  | ErrNoCallback.        (* "No callback function specified" *)

(** A target given either as a live window or as a window name. *)
Inductive target_ref :=
  | TWindow (w : win)
  | TName (name : string).

(** ** serializeWindowReference (lines 208-245)

    [transverseLevel] is called with two arguments, so [level] is
    [undefined]. *)
Definition serializeWindowReference (fuel : nat) (g : window_graph)
  (currentWindow : win) (targetWindow : target_ref) : string + pm_error :=
  match targetWindow with
  | TName n => inl (":" ++ n)
  | TWindow t =>
    if Nat.eqb currentWindow t then inr ErrSelfReference else
    if (match parent g currentWindow with
        | Some p => negb (Nat.eqb p currentWindow) && Nat.eqb p t
        | None => false end) then inl "p" else
    if (match opener g currentWindow with
        | Some o => negb (Nat.eqb o currentWindow) && Nat.eqb o t
        | None => false end) then inl "o" else
    match transverseLevel fuel g currentWindow t LUndefined with
    | OutOfFuel => inr ErrStackOverflow
    | Raised n => inr (ErrSearch n)
    | Done (Some ref) => inl ref
    | Done None => inr ErrUnresolvable
    end
  end.

(* ------------------------------------------------------------------ *)
(** ** Concrete window graphs

    In the first three graphs every window's only enumerable keys are its
    frame indices and [window.frames[0] instanceof Window] holds (as in
    old IE, the browsers the frame check was written for). *)

(** A page [0] with two frames [1] and [2]; frame [2] holds a chain of
    nested frames [3], [4], [5], [6], [7].  Every frame's [parent] is its
    container, so [0] and [1] form a cycle through [frames]/[parent].
    Window [7] is reachable from [0] only by the six-hop path
    [f,1.f,0.f,0.f,0.f,0.f,0]. *)
Definition deep_frames (w : win) : list win :=
  match w with
  | 0 => [1; 2] | 2 => [3] | 3 => [4] | 4 => [5] | 5 => [6] | 6 => [7]
  | _ => []
  end.

Definition deep_graph : window_graph := {|
  frames := deep_frames;
  frames_forin := fun w => index_keys (deep_frames w);
  frame0_instanceof_Window := fun _ => IsWindow;
  parent := fun w =>
    match w with
    | 0 | 1 | 2 => Some 0
    | S w' => Some w'
    end;
  opener := fun _ => None
|}.

(** A top-level window [0] opened by window [1], where [1] is a frame of
    the page [2]. *)
Definition opener_frames (w : win) : list win :=
  match w with 2 => [1] | _ => [] end.

Definition opener_graph : window_graph := {|
  frames := opener_frames;
  frames_forin := fun w => index_keys (opener_frames w);
  frame0_instanceof_Window := fun _ => IsWindow;
  parent := fun w => match w with 1 => Some 2 | _ => Some w end;
  opener := fun w => match w with 0 => Some 1 | _ => None end
|}.

(** A window [0] whose only frame is window [1], which is also recorded
    as the parent of [0]. *)
Definition frame_parent_frames (w : win) : list win :=
  match w with 0 => [1] | _ => [] end.

Definition frame_parent_graph : window_graph := {|
  frames := frame_parent_frames;
  frames_forin := fun w => index_keys (frame_parent_frames w);
  frame0_instanceof_Window := fun _ => IsWindow;
  parent := fun w => match w with 0 => Some 1 | _ => Some 0 end;
  opener := fun _ => None
|}.

(** A top-level page [0] with one frame [1], whose global variable
    [popup] holds a window [5] that is neither a frame, a parent nor an
    opener of any window here; [for (var frame in window.frames)] on [0]
    enumerates ["0"] and then ["popup"]. *)
Definition popup_graph : window_graph := {|
  frames := fun w => match w with 0 => [1] | _ => [] end;
  frames_forin := fun w =>
    match w with
    | 0 => [ForInKey "0" (ReadWindow 1); ForInKey "popup" (ReadWindow 5)]
    | _ => []
    end;
  frame0_instanceof_Window := fun _ => IsWindow;
  parent := fun w => match w with 1 => Some 0 | _ => Some w end;
  opener := fun _ => None
|}.

(** The same page in a standards browser: [window.frames[0] instanceof
    Window] is false, since frame [1] belongs to another global. *)
Definition standards_graph : window_graph := {|
  frames := fun w => match w with 0 => [1] | _ => [] end;
  frames_forin := fun w => match w with 0 => [ForInKey "0" (ReadWindow 1)] | _ => [] end;
  frame0_instanceof_Window := fun _ => NotWindow;
  parent := fun w => match w with 1 => Some 0 | _ => Some w end;
  opener := fun _ => None
|}.

(* ------------------------------------------------------------------ *)
(** ** URL helpers

    A JavaScript string is represented by its UTF-8 encoding, a Rocq
    string of bytes; every JavaScript string without lone surrogates has
    one, and the byte strings that are not valid UTF-8 stand for no
    JavaScript string.  Equality, emptiness and searches for ASCII
    characters agree between a string and its encoding. *)

Definition is_line_terminator (c : ascii) : bool :=
  Ascii.eqb c "010"%char || Ascii.eqb c "013"%char.

(** U+2028 and U+2029 (bytes E2 80 A8 and E2 80 A9) are line terminators
    too. *)
Definition starts_with_line_separator (s : string) : bool :=
  match s with
  | String a (String b (String c _)) =>
      Ascii.eqb a "226"%char && Ascii.eqb b "128"%char &&
      (Ascii.eqb c "168"%char || Ascii.eqb c "169"%char)
  | _ => false
  end.

(** The text matched by [.*]: the longest prefix without a line
    terminator. *)
Fixpoint dot_star (s : string) : string :=
  match s with
  | EmptyString => ""
  | String c s' =>
      if is_line_terminator c || starts_with_line_separator s then ""
      else String c (dot_star s')
  end.

Fixpoint contains_line_separator (s : string) : bool :=
  match s with
  | EmptyString => false
  | String _ s' => starts_with_line_separator s || contains_line_separator s'
  end.

(** Longest prefix of [s] whose characters satisfy [p], and the rest. *)
Fixpoint span (p : ascii -> bool) (s : string) : string * string :=
  match s with
  | EmptyString => ("", "")
  | String c s' =>
      if p c then let (a, b) := span p s' in (String c a, b) else ("", s)
  end.

(** Match of [/([^:]+:\/\/[^\/]+).*/] anchored at the start of [s]:
    the text of group 1 and the length of the whole match. *)
Definition domain_match_at (s : string) : option (string * nat) :=
  let (scheme, r1) := span (fun c => negb (Ascii.eqb c ":")) s in
  if String.eqb scheme "" then None else
  if negb (String.prefix "://" r1) then None else
  let r2 := substring 3 (String.length r1 - 3) r1 in
  let (host, r3) := span (fun c => negb (Ascii.eqb c "/")) r2 in
  if String.eqb host "" then None else
  let tail := dot_star r3 in
  let g1 := scheme ++ "://" ++ host in
  Some (g1, String.length g1 + String.length tail).

(** [url.replace(/([^:]+:\/\/[^\/]+).*/, '$1')]: the first match from the
    left is replaced by its group 1; without a match [url] is returned. *)
Fixpoint regex_replace_domain (pre s : string) : string :=
  match domain_match_at s with
  | Some (g1, n) => pre ++ g1 ++ substring n (String.length s - n) s
  | None =>
    match s with
    | EmptyString => pre
    | String c s' => regex_replace_domain (pre ++ String c "") s'
    end
  end.

(** getDomainFromUrl (lines 83-86) *)
Definition getDomainFromUrl (url : string) : string :=
  regex_replace_domain "" url.

Definition hex_digit_value (c : ascii) : option nat :=
  let n := nat_of_ascii c in
  if (Nat.leb 48 n) && (Nat.leb n 57) then Some (n - 48)
  else if (Nat.leb 65 n) && (Nat.leb n 70) then Some (n - 55)
  else if (Nat.leb 97 n) && (Nat.leb n 102) then Some (n - 87)
  else None.

(** The input of [decodeURIComponent] read as characters and [%XX]
    escapes (the byte [XX]); a ['%'] not followed by two hex digits throws
    [URIError] ([None]).  Every ['%'] of the input starts an escape in the
    algorithm of ECMA-262 (Decode), whose outcome is [URIError] as soon as
    one of them is malformed. *)
Inductive uri_token :=
  | TChar (c : ascii)
  | TByte (b : nat).

Fixpoint uri_tokens (s : string) : option (list uri_token) :=
  match s with
  | EmptyString => Some []
  | String c s' =>
    if Ascii.eqb c "%" then
      match s' with
      | String h1 (String h2 rest) =>
        match hex_digit_value h1, hex_digit_value h2 with
        | Some a, Some b => option_map (cons (TByte (16 * a + b))) (uri_tokens rest)
        | _, _ => None
        end
      | _ => None
      end
    else option_map (cons (TChar c)) (uri_tokens s')
  end.

Definition in_range (lo hi b : nat) : bool := Nat.leb lo b && Nat.leb b hi.

(** Well-formed UTF-8 sequences (Unicode, Table 3-7): for a lead byte,
    the number of continuation bytes and the range of the first one (the
    others range over 80..BF).  Lead bytes C0, C1 and F5..FF, and the
    continuation bytes 80..BF, start no sequence. *)
Definition utf8_lead (b0 : nat) : option (nat * nat * nat) :=
  if in_range 194 223 b0 then Some (1, 128, 191)
  else if Nat.eqb b0 224 then Some (2, 160, 191)
  else if in_range 225 236 b0 then Some (2, 128, 191)
  else if Nat.eqb b0 237 then Some (2, 128, 159)
  else if in_range 238 239 b0 then Some (2, 128, 191)
  else if Nat.eqb b0 240 then Some (3, 144, 191)
  else if in_range 241 243 b0 then Some (3, 128, 191)
  else if Nat.eqb b0 244 then Some (3, 128, 143)
  else None.

(** Decode (ECMA-262) after the escapes are read: an escaped byte below 80
    is its character; a higher one must start, with the escapes following
    it, a valid UTF-8 sequence (else [URIError]), whose code point is
    appended (as its UTF-8 bytes).  Unescaped characters are copied. *)
Fixpoint utf8_of_tokens (ts : list uri_token) : option string :=
  match ts with
  | [] => Some ""
  | TChar c :: ts' => option_map (String c) (utf8_of_tokens ts')
  | TByte b0 :: ts' =>
    if Nat.ltb b0 128 then option_map (String (ascii_of_nat b0)) (utf8_of_tokens ts') else
    match utf8_lead b0, ts' with
    | Some (1, lo, hi), TByte b1 :: ts1 =>
        if in_range lo hi b1 then
          option_map (fun r => String (ascii_of_nat b0) (String (ascii_of_nat b1) r))
            (utf8_of_tokens ts1)
        else None
    | Some (2, lo, hi), TByte b1 :: TByte b2 :: ts2 =>
        if in_range lo hi b1 && in_range 128 191 b2 then
          option_map (fun r => String (ascii_of_nat b0) (String (ascii_of_nat b1)
                                 (String (ascii_of_nat b2) r)))
            (utf8_of_tokens ts2)
        else None
    | Some (3, lo, hi), TByte b1 :: TByte b2 :: TByte b3 :: ts3 =>
        if in_range lo hi b1 && in_range 128 191 b2 && in_range 128 191 b3 then
          option_map (fun r => String (ascii_of_nat b0) (String (ascii_of_nat b1)
                                 (String (ascii_of_nat b2) (String (ascii_of_nat b3) r))))
            (utf8_of_tokens ts3)
        else None
    | _, _ => None
    end
  end.

(** [decodeURIComponent]; [None] is the [URIError] it throws. *)
Definition decodeURIComponent (s : string) : option string :=
  match uri_tokens s with
  | Some ts => utf8_of_tokens ts
  | None => None
  end.

(** A byte string that is the UTF-8 encoding of a string. *)
Fixpoint utf8_valid (s : string) : bool :=
  match s with
  | EmptyString => true
  | String c s' =>
    if Nat.ltb (nat_of_ascii c) 128 then utf8_valid s' else
    match utf8_lead (nat_of_ascii c), s' with
    | Some (1, lo, hi), String c1 s1 =>
        in_range lo hi (nat_of_ascii c1) && utf8_valid s1
    | Some (2, lo, hi), String c1 (String c2 s2) =>
        in_range lo hi (nat_of_ascii c1) && in_range 128 191 (nat_of_ascii c2) &&
        utf8_valid s2
    | Some (3, lo, hi), String c1 (String c2 (String c3 s3)) =>
        in_range lo hi (nat_of_ascii c1) && in_range 128 191 (nat_of_ascii c2) &&
        in_range 128 191 (nat_of_ascii c3) && utf8_valid s3
    | _, _ => false
    end
  end.

Definition hex_upper (n : nat) : ascii :=
  if Nat.ltb n 10 then ascii_of_nat (48 + n) else ascii_of_nat (55 + n).

(** Characters [encodeURIComponent] leaves alone. *)
Definition uri_unreserved (c : ascii) : bool :=
  let n := nat_of_ascii c in
  ((Nat.leb 48 n) && (Nat.leb n 57)) || ((Nat.leb 65 n) && (Nat.leb n 90)) ||
  ((Nat.leb 97 n) && (Nat.leb n 122)) ||
  existsb (Ascii.eqb c) ["-"; "_"; "."; "!"; "~"; "*"; "'"; "("; ")"]%char.

(** [encodeURIComponent]: every other byte becomes [%XX] (upper case). *)
Fixpoint encodeURIComponent (s : string) : string :=
  match s with
  | EmptyString => ""
  | String c s' =>
    if uri_unreserved c then String c (encodeURIComponent s')
    else let n := nat_of_ascii c in
      String "%" (String (hex_upper (n / 16)) (String (hex_upper (n mod 16))
        (encodeURIComponent s')))
  end.

Definition string_of_Z (z : Z) : string :=
  NilEmpty.string_of_int (Z.to_int z).

(* ------------------------------------------------------------------ *)
(** ** $.postMessage (lines 254-334) *)

(** Outcome of [targetWindow.postMessage(message, targetHost)]: it returns,
    or throws an exception whose [number] property is given ([None] when
    the exception has no [number], as outside IE). *)
Inductive native_result :=
  | NativeOk
  | NativeThrows (number : option Z).

(** Reading [targetWindow.__receiveMessageHook]. *)
Inductive hook_lookup :=
  | HookFunction       (* a function: the plugin is loaded in the target *)
  | HookAbsent         (* undefined *)
  | HookAccessThrows.  (* cross-origin access violation *)

(** What the page around the plugin provides. *)
Record send_env := {
  browserSupportsPostMessage : bool;      (* [!!window.postMessage] at load *)
  native_postMessage : win -> string -> string -> native_result;
  hook_of : win -> hook_lookup;
  hook_returns : win -> string -> string -> bool; (* false: the hook throws *)
  env_graph : window_graph;
  env_window : win;                       (* [window] *)
  location_href : string;                 (* [document.location.href] *)
  now : Z                                 (* [+new Date()] *)
}.

(** Page state written by [$.postMessage]. *)
Record page_state := {
  cacheBuster : Z;
  proxy_iframes : list string   (* [src] of the hidden iframes appended *)
}.

(** What a call of [$.postMessage] did. *)
Inductive send_outcome :=
  | SentNative (w : win) (message host : string)
  | SentHook (w : win) (message host : string)
  | SentProxy (iframe_src : string)
  | Thrown (e : pm_error).

(** IE's "No such interface supported". *)
Definition E_NOINTERFACE : Z := -2147467262.

(** Step 1: the native call; [None] falls through to the polyfill.
    [ex.number != -2147467262] is a loose comparison: an exception without
    [number] is re-thrown. *)
Definition native_step (env : send_env) (tw : win) (message host : string)
  : option send_outcome :=
  if browserSupportsPostMessage env then
    match native_postMessage env tw message host with
    | NativeOk => Some (SentNative tw message host)
    | NativeThrows (Some n) =>
        if Z.eqb n E_NOINTERFACE then None else Some (Thrown (ErrNative (Some n)))
    | NativeThrows None => Some (Thrown (ErrNative None))
    end
  else None.

(** Step 2: the direct call of the target's hook; every exception is
    swallowed by the empty [catch]. *)
Definition hook_step (env : send_env) (tw : win) (message host : string)
  : option send_outcome :=
  match hook_of env tw with
  | HookFunction =>
      if hook_returns env tw message host then Some (SentHook tw message host)
      else None
  | HookAbsent | HookAccessThrows => None
  end.

Definition proxy_path : string := "/vp/JS-Lib/jQuery/plugins/postmessage.htm#".

(** Step 3: the hidden proxy iframe.  The [src] expression is evaluated
    from the left starting with a string, so [(+new Date())] and
    [cacheBuster] are each converted to decimal and concatenated, not
    added. *)
Definition proxy_step (fuel : nat) (env : send_env) (st : page_state)
  (target : target_ref) (message host : string) : send_outcome * page_state :=
  match serializeWindowReference fuel (env_graph env) (env_window env) target with
  | inr e => (Thrown e, st)
  | inl serializedWindowRef =>
    let thisDomain := getDomainFromUrl (location_href env) in
    let src := host ++ proxy_path ++ string_of_Z (now env) ++ string_of_Z (cacheBuster st) ++
               "&" ++ serializedWindowRef ++ "&" ++ thisDomain ++ "&" ++
               encodeURIComponent message in
    (SentProxy src, {| cacheBuster := cacheBuster st + 1;
                       proxy_iframes := proxy_iframes st ++ [src] |})
  end.

(** [$.postMessage(message, targetHost, targetWindow, targetWindowName)];
    [None] stands for [undefined] arguments. *)
Definition postMessage (fuel : nat) (env : send_env) (st : page_state)
  (message : string) (targetHost : option string) (targetWindow : option win)
  (targetWindowName : option string) : send_outcome * page_state :=
  if negb (truthy_str targetHost) then (Thrown ErrMissingOrigin, st) else
  match targetWindow with
  | None => (Thrown ErrMissingTarget, st)
  | Some tw =>
    let host := getDomainFromUrl (match targetHost with Some h => h | None => "" end) in
    match native_step env tw message host with
    | Some r => (r, st)
    | None =>
      match hook_step env tw message host with
      | Some r => (r, st)
      | None =>
        let target := match targetWindowName with
                      | Some n => if truthy_str (Some n) then TName n else TWindow tw
                      | None => TWindow tw
                      end in
        proxy_step fuel env st target message host
      end
    end
  end.

(* ------------------------------------------------------------------ *)
(** ** Receiving: jQuery's event store for [$(window)]

    jQuery keeps, per element and event type, one list of handlers; the
    first [.on('message', h)] creates the list and attaches one native
    listener ([addEventListener]) that runs the whole list, later calls
    only append to it. *)

(** A callback passed to [$.receiveMessage], named by a number. *)
Definition callback_id := nat.

(** A handler created by [$.receiveMessage]: its callback and its rule. *)
Record handler_entry := {
  h_callback : callback_id;
  h_rule : allow_rule
}.

Record jq_window := {
  message_handlers : option (list handler_entry);  (* events.message *)
  native_listeners : nat                           (* addEventListener calls *)
}.

Definition empty_jq_window : jq_window :=
  {| message_handlers := None; native_listeners := 0 |}.

(** [$(window).on('message', handler)] *)
Definition jq_on (h : handler_entry) (w : jq_window) : jq_window :=
  match message_handlers w with
  | None => {| message_handlers := Some [h];
               native_listeners := S (native_listeners w) |}
  | Some hs => {| message_handlers := Some (hs ++ [h])%list;
                  native_listeners := native_listeners w |}
  end.

(** A native [message] event. *)
Record native_event := {
  ne_data : string;
  ne_origin : string
}.

(** The jQuery event object a handler receives: it wraps a native event
    ([originalEvent]) or was synthesized by [.trigger] (no
    [originalEvent]); [event.data] and [event.origin] are its own
    properties. *)
Record jq_event := {
  originalEvent : option native_event;
  ev_data : option string;
  ev_origin : option string
}.

(** The object given to a callback: [{ 'data': data, 'origin': origin }]. *)
Record message_record := {
  rec_data : option string;
  rec_origin : option string
}.

(** [data = event.originalEvent ? event.originalEvent.data : event.data] *)
Definition event_data (ev : jq_event) : option string :=
  match originalEvent ev with Some ne => Some (ne_data ne) | None => ev_data ev end.

(** [event.originalEvent ? event.originalEvent.origin : event.origin] *)
Definition event_origin (ev : jq_event) : option string :=
  match originalEvent ev with Some ne => Some (ne_origin ne) | None => ev_origin ev end.

(** The origin reported to the callback (lines 361-364). *)
Definition reported_origin (ev : jq_event) (origin : option string) : option string :=
  if truthy_str origin then origin else event_origin ev.

(** The origin given to [isOriginMatch] (line 366):
    [event.originalEvent ? event.originalEvent.origin : origin]. *)
Definition checked_origin (ev : jq_event) (origin : option string) : option string :=
  match originalEvent ev with
  | Some ne => Some (ne_origin ne)
  | None => reported_origin ev origin
  end.

(** The handler installed by [$.receiveMessage] (lines 354-369), called
    as [handler(event, data, origin)]; [Some] is the call of the callback,
    [None] the [false] returned when the rule does not match. *)
Definition message_handler (rule : allow_rule) (cb : callback_id)
  (ev : jq_event) (data origin : option string)
  : option (callback_id * message_record) :=
  let data' := if truthy_str data then data else event_data ev in
  let origin' := reported_origin ev origin in
  if isOriginMatch rule (checked_origin ev origin)
  then Some (cb, {| rec_data := data'; rec_origin := origin' |})
  else None.

(** jQuery.event.dispatch: every handler of the list, in order, with the
    event and the extra arguments. *)
Definition jq_dispatch (w : jq_window) (ev : jq_event) (extra : list string)
  : list (callback_id * message_record) :=
  match message_handlers w with
  | None => []
  | Some hs =>
    flat_map (fun h =>
      match message_handler (h_rule h) (h_callback h) ev
              (nth_error extra 0) (nth_error extra 1) with
      | Some inv => [inv]
      | None => []
      end) hs
  end.

(** A native [message] event reaches the page: each native listener runs
    jQuery's dispatch once, with the wrapped event and no extra
    arguments. *)
Definition deliver_native (w : jq_window) (ne : native_event)
  : list (callback_id * message_record) :=
  concat (repeat (jq_dispatch w {| originalEvent := Some ne; ev_data := None;
                                   ev_origin := None |} [])
                 (native_listeners w)).

(** [$(window).trigger('message', extraParameters)]: a synthesized event
    without [originalEvent]; jQuery's [.trigger(eventType, extraParameters)]
    takes one [extraParameters] value, a single string being passed as one
    extra argument. *)
Definition triggered_event : jq_event :=
  {| originalEvent := None; ev_data := None; ev_origin := None |}.

Definition jq_trigger (w : jq_window) (extraParameters : string)
  : list (callback_id * message_record) :=
  jq_dispatch w triggered_event [extraParameters].

(** [if (!allowedOriginOrFunction) allowedOriginOrFunction = "*";] *)
Definition default_rule (r : allow_rule) : allow_rule :=
  if rule_falsy r then RString "*" else r.

(** [$.receiveMessage(callback, allowedOriginOrFunction)] (lines 342-370);
    [None] is an undefined callback. *)
Definition receiveMessage (callback : option callback_id)
  (allowedOriginOrFunction : allow_rule) (w : jq_window) : pm_error + jq_window :=
  match callback with
  | None => inl ErrNoCallback
  | Some cb =>
    inr (jq_on {| h_callback := cb; h_rule := default_rule allowedOriginOrFunction |} w)
  end.

(** [window.__receiveMessageHook(message, origin)] (lines 375-378):
    [$(window).trigger('message', decodeURIComponent(message), origin)].
    The third argument is beyond [.trigger]'s two parameters. *)
Definition receiveMessageHook (w : jq_window) (message origin : string)
  : pm_error + list (callback_id * message_record) :=
  match decodeURIComponent message with
  | None => inl ErrURI
  | Some d => inr (jq_trigger w d)
  end.

(** A sequence of [$.receiveMessage] calls on one page. *)
Fixpoint receive_all (regs : list (option callback_id * allow_rule)) (w : jq_window)
  : pm_error + jq_window :=
  match regs with
  | [] => inr w
  | (cb, r) :: regs' =>
    match receiveMessage cb r w with
    | inl e => inl e
    | inr w' => receive_all regs' w'
    end
  end.

(* ------------------------------------------------------------------ *)
(** ** Concrete pages *)

(** A page [0] (of [opener_graph]) where the native [postMessage] works. *)
Definition native_env : send_env := {|
  browserSupportsPostMessage := true;
  native_postMessage := fun _ _ _ => NativeOk;
  hook_of := fun _ => HookFunction;
  hook_returns := fun _ _ _ => true;
  env_graph := opener_graph;
  env_window := 0;
  location_href := "http://a.com/index.html";
  now := 1000%Z
|}.

(** The same page in a browser without [window.postMessage], where the
    page's own hook is not reachable. *)
Definition legacy_env : send_env := {|
  browserSupportsPostMessage := false;
  native_postMessage := fun _ _ _ => NativeThrows (Some E_NOINTERFACE);
  hook_of := fun _ => HookAbsent;
  hook_returns := fun _ _ _ => true;
  env_graph := opener_graph;
  env_window := 0;
  location_href := "http://a.com/index.html";
  now := 1000%Z
|}.

(** A browser with [window.postMessage] whose native call throws an
    exception without [number] (a [SyntaxError] for a target origin such
    as ["b.com"]). *)
Definition syntax_error_env : send_env := {|
  browserSupportsPostMessage := true;
  native_postMessage := fun _ _ _ => NativeThrows None;
  hook_of := fun _ => HookFunction;
  hook_returns := fun _ _ _ => true;
  env_graph := opener_graph;
  env_window := 0;
  location_href := "http://a.com/index.html";
  now := 1000%Z
|}.

(** IE refusing the native call with E_NOINTERFACE, the target's hook
    reachable but throwing. *)
Definition hook_throws_env : send_env := {|
  browserSupportsPostMessage := true;
  native_postMessage := fun _ _ _ => NativeThrows (Some E_NOINTERFACE);
  hook_of := fun _ => HookFunction;
  hook_returns := fun _ _ _ => false;
  env_graph := opener_graph;
  env_window := 0;
  location_href := "http://a.com/index.html";
  now := 1000%Z
|}.

(** A browser without [window.postMessage] where the target's hook is
    reachable; the hook throws exactly when [decodeURIComponent] of the
    message it is passed throws. *)
Definition direct_hook_env : send_env := {|
  browserSupportsPostMessage := false;
  native_postMessage := fun _ _ _ => NativeThrows (Some E_NOINTERFACE);
  hook_of := fun _ => HookFunction;
  hook_returns := fun _ m _ => match decodeURIComponent m with Some _ => true | None => false end;
  env_graph := opener_graph;
  env_window := 0;
  location_href := "http://a.com/index.html";
  now := 1000%Z
|}.

Definition initial_page : page_state := {| cacheBuster := 1%Z; proxy_iframes := [] |}.

(** A page after [$.receiveMessage(cb1)] (wildcard rule). *)
Definition wildcard_page : jq_window := {|
  message_handlers := Some [{| h_callback := 1; h_rule := RString "*" |}];
  native_listeners := 1
|}.

(** A page with a wildcard handler [1], a handler [2] for
    ["http://a.com"] only and a handler [3] whose function accepts only
    defined origins. *)
Definition mixed_page : jq_window := {|
  message_handlers := Some [{| h_callback := 1; h_rule := RString "*" |};
                           {| h_callback := 2; h_rule := RString "http://a.com" |};
                           {| h_callback := 3;
                              h_rule := RFunction (fun o => match o with
                                                            | Some _ => true
                                                            | None => false end) |}];
  native_listeners := 1
|}.

(** A page with only the handler [2] for ["http://a.com"]. *)
Definition origin_page : jq_window := {|
  message_handlers := Some [{| h_callback := 2; h_rule := RString "http://a.com" |}];
  native_listeners := 1
|}.

(** The handler entry one registration [(callback, rule)] creates. *)
Definition entry_of (r : callback_id * allow_rule) : handler_entry :=
  {| h_callback := fst r; h_rule := default_rule (snd r) |}.

(** The callbacks a native event [ne] reaches, one per matching entry. *)
Definition native_invocations (regs : list (callback_id * allow_rule))
  (ne : native_event) : list (callback_id * message_record) :=
  flat_map (fun r =>
    if isOriginMatch (default_rule (snd r)) (Some (ne_origin ne))
    then [(fst r, {| rec_data := Some (ne_data ne); rec_origin := Some (ne_origin ne) |})]
    else []) regs.

Definition level_numeric (l : js_level) : bool :=
  match l with LNum _ => true | _ => false end.

(* ------------------------------------------------------------------ *)
(** ** jquery.delimitedString.js *)

(** A plain JavaScript object used as a string map: its own properties,
    each set once (assignment to an existing key replaces its value).
    Enumeration order is not used by the statements below. *)
Definition js_object := list (string * string).

Fixpoint own_property (k : string) (o : js_object) : option string :=
  match o with
  | [] => None
  | (k', v) :: o' => if String.eqb k k' then Some v else own_property k o'
  end.

(** [ret[k] = v] on a fresh object literal: the key ["__proto__"] runs
    the inherited [__proto__] setter, which ignores a string value. *)
Fixpoint obj_set (k v : string) (o : js_object) : js_object :=
  if String.eqb k "__proto__" then o else
  match o with
  | [] => [(k, v)]
  | (k', v') :: o' =>
      if String.eqb k k' then (k, v) :: o' else (k', v') :: obj_set k v o'
  end.

(** [s.split(sep)] for a string separator: [skip] counts the characters
    of a matched separator still to be passed over, [cur] is the piece
    being read. *)
Fixpoint split_go (sep s : string) (skip : nat) (cur : string) : list string :=
  match s with
  | EmptyString => [cur]
  | String c s' =>
    match skip with
    | S k => split_go sep s' k cur
    | O =>
      if String.prefix sep s then cur :: split_go sep s' (String.length sep - 1) ""
      else split_go sep s' 0 (cur ++ String c "")
    end
  end.

Fixpoint split_chars (s : string) : list string :=
  match s with
  | EmptyString => []
  | String c s' => String c "" :: split_chars s'
  end.

(** [String.prototype.split(separator)]; the empty separator splits into
    single characters. *)
Definition js_split (s sep : string) : list string :=
  if String.eqb sep "" then split_chars s else split_go sep s 0 "".

(** [Array.prototype.join(sep)] *)
Definition js_join (sep : string) (l : list string) : string :=
  String.concat sep l.

(** [s.indexOf(t)]; [None] is [-1]. *)
Definition js_indexOf (s t : string) : option nat := String.index 0 t s.

(** [s.substring(start)] *)
Definition substring_from (start : nat) (s : string) : string :=
  substring start (String.length s - start) s.

(** [f || function(s) { return s; }] *)
Definition coder_or_identity (f : option (string -> string)) : string -> string :=
  match f with Some f' => f' | None => fun s => s end.

(** The body of the loop of [$.parseDelimitedString] for one [pair]
    (lines 50-63). *)
Definition parse_pair (pairDelimiter : string) (keyDecoder valueDecoder : string -> string)
  (ret : js_object) (pair : string) : js_object :=
  if Nat.ltb 0 (String.length pair) then
    match js_indexOf pair pairDelimiter with
    | Some delimIndex =>
      if Nat.ltb 0 delimIndex && Nat.leb delimIndex (String.length pair - 1) then
        let key := substring 0 delimIndex pair in
        let value := substring_from (delimIndex + 1) pair in
        obj_set (keyDecoder key) (valueDecoder value) ret
      else ret
    | None => ret
    end
  else ret.

(** [$.parseDelimitedString] (lines 37-68); [None] is an undefined
    string. *)
Definition parseDelimitedString (delimitedString : option string)
  (itemDelimiter pairDelimiter : string)
  (keyDecoder valueDecoder : option (string -> string)) : js_object :=
  let kd := coder_or_identity keyDecoder in
  let vd := match valueDecoder with Some f => f | None => kd end in
  match delimitedString with
  | Some s =>
      if truthy_str (Some s)
      then fold_left (parse_pair pairDelimiter kd vd) (js_split s itemDelimiter) []
      else []
  | None => []
  end.

(** The properties [for (var key in data)] visits, in order, each with
    its value and whether [data.hasOwnProperty(key)]. *)
Definition enumerated_props := list (string * string * bool).

(** [$.encodeDelimitedString] (lines 12-33); [None] is a falsy [data]. *)
Definition encodeDelimitedString (data : option enumerated_props)
  (itemDelimiter pairDelimiter : string)
  (keyEncoder valueEncoder : option (string -> string)) : string :=
  match data with
  | None => ""
  | Some props =>
    let ke := coder_or_identity keyEncoder in
    let ve := match valueEncoder with Some f => f | None => ke end in
    js_join itemDelimiter
      (map (fun p => ke (fst (fst p)) ++ pairDelimiter ++ ve (snd (fst p)))
           (filter (fun p => snd p) props))
  end.

(** Whether [s] contains the character [c]. *)
Fixpoint contains_char (c : ascii) (s : string) : bool :=
  match s with
  | EmptyString => false
  | String b s' => Ascii.eqb c b || contains_char c s'
  end.

(** Position (counted from [i]) of the first occurrence of [t] in [fs]. *)
Fixpoint list_index_of (fs : list win) (t : win) (i : nat) : option nat :=
  match fs with
  | [] => None
  | f :: fs' => if Nat.eqb f t then Some i else list_index_of fs' t (S i)
  end.

(** Windows reachable from a window through [frames], [parent] and
    [opener] links, and through the window-valued properties that
    [for (var frame in window.frames)] enumerates (its global variables
    among them). *)
Inductive reachable (g : window_graph) : win -> win -> Prop :=
  | reach_frame (w f : win) : In f (frames g w) -> reachable g w f
  | reach_prop (w v : win) (k : string) :
      In (ForInKey k (ReadWindow v)) (frames_forin g w) -> reachable g w v
  | reach_parent (w p : win) : parent g w = Some p -> reachable g w p
  | reach_opener (w o : win) : opener g w = Some o -> reachable g w o
  | reach_trans (w v t : win) : reachable g w v -> reachable g v t -> reachable g w t.

(* ================================================================== *)
(** * Proofs *)

(** ** Lemmas on the path search *)

(** Once [level] is not a number, it never becomes one again. *)
Lemma level_succ_non_numeric (l : js_level) :
  level_numeric l = false -> level_succ l = LNaN.
Proof. destruct l; simpl; congruence. Qed.

(** On [deep_graph], a search for [7] started at [0] or [1] with a
    non-numeric level never returns: [0] descends into frame [1], whose
    parent is [0] again. *)
Lemma deep_graph_cycle (fuel : nat) :
  forall l, level_numeric l = false ->
  transverseLevel fuel deep_graph 0 7 l = OutOfFuel /\
  transverseLevel fuel deep_graph 1 7 l = OutOfFuel.
Proof.
  induction fuel as [|fuel IH]; intros l Hl.
  - split; reflexivity.
  - destruct (IH LNaN eq_refl) as [H0 H1].
    destruct l; try discriminate Hl; split; simpl;
      rewrite ?H0, ?H1; reflexivity.
Qed.

(** ** Claims on the path search *)

(** C1 (depth bound).  [serializeWindowReference] calls [transverseLevel]
    without its [level] argument, so [level] is [undefined], every nested
    call gets [NaN], and [level >= 4] is never true.  On [deep_graph], whose
    target [7] is only reachable six hops deep and where [0] and its frame
    [1] form a cycle, the search never returns, however many nested calls
    are allowed: the call ends in a stack overflow, not in the
    "Couldn't serialize window reference" error.  Started with [level = 0],
    the same search gives up with [false] after five levels. *)
Theorem C1_depth_bound_not_applied :
  (forall fuel, serializeWindowReference fuel deep_graph 0 (TWindow 7)
                = inr ErrStackOverflow) /\
  transverseLevel 6 deep_graph 0 7 (LNum 0) = Done None.
Proof.
  split; [|reflexivity].
  intro fuel. unfold serializeWindowReference. simpl.
  destruct (deep_graph_cycle fuel LUndefined eq_refl) as [H _].
  rewrite H. reflexivity.
Qed.

(** C3 (path grammar).  A path whose first hop is an opener hop is built
    as ["o" + ref] with no ["."]: from window [0] of [opener_graph], whose
    opener [1] has parent [2], the target [2] serializes as ["op"]
    (not ["o.p"]), for every recursion budget of at least two calls. *)
Theorem C3_opener_hop_without_separator (fuel : nat) :
  serializeWindowReference (S (S fuel)) opener_graph 0 (TWindow 2) = inl "op".
Proof. reflexivity. Qed.

(** In a window whose only enumerable keys are its frame indices and where
    the [instanceof Window] guard holds, the for-in loop finds the first
    index of the target. *)
Lemma forin_frames_index_keys (fs : list win) (t i : nat) :
  forin_frames IsWindow (index_keys_from fs i) t =
  match list_index_of fs t i with
  | Some k => FrameFound (string_of_nat k)
  | None => FrameNotFound
  end.
Proof.
  revert i. induction fs as [|f fs IH]; intro i; [reflexivity|].
  simpl. destruct (Nat.eqb f t); [reflexivity|]. apply IH.
Qed.

(** When the guard is false, no key ever matches. *)
Lemma forin_frames_not_window (steps : list forin_step) (t : win) (k : string) :
  forin_frames NotWindow steps t <> FrameFound k.
Proof.
  induction steps as [|[key v|n] steps IH]; simpl; try discriminate. exact IH.
Qed.

(** On [standards_graph] a search for frame [1] started at [0] or [1]
    with a non-numeric level never returns: the frame check of [0] fails
    on its guard, and [1] recurses into its parent [0]. *)
Lemma standards_graph_cycle (fuel : nat) :
  forall l, level_numeric l = false ->
  transverseLevel fuel standards_graph 0 1 l = OutOfFuel /\
  transverseLevel fuel standards_graph 1 1 l = OutOfFuel.
Proof.
  induction fuel as [|fuel IH]; intros l Hl.
  - split; reflexivity.
  - destruct (IH LNaN eq_refl) as [H0 H1].
    destruct l; try discriminate Hl; split; simpl;
      rewrite ?H0, ?H1; reflexivity.
Qed.

(** C4 (counterexample).  In [frame_parent_graph] the target [1] is both
    the first child frame of [0] (found by the frame check) and the parent
    of [0]; [serializeWindowReference] returns ["p"], not ["f,0"].  In
    [standards_graph], where [window.frames[0] instanceof Window] is false,
    the target [1] is the direct child frame at index [0] of [0], yet the
    search never returns (a stack overflow) instead of giving ["f,0"]. *)
Lemma C4_parent_before_frames :
  direct_frame_check frame_parent_graph 0 1 = FrameFound "0" /\
  parent frame_parent_graph 0 = Some 1 /\
  serializeWindowReference 1 frame_parent_graph 0 (TWindow 1) = inl "p" /\
  serializeWindowReference 1 frame_parent_graph 0 (TWindow 1) <> inl "f,0" /\
  frames standards_graph 0 = [1] /\
  (forall fuel, serializeWindowReference fuel standards_graph 0 (TWindow 1)
                = inr ErrStackOverflow).
Proof.
  split; [reflexivity|split; [reflexivity|split; [reflexivity|split; [discriminate|]]]].
  split; [reflexivity|].
  intro fuel. unfold serializeWindowReference. simpl.
  destruct (standards_graph_cycle fuel LUndefined eq_refl) as [H _].
  rewrite H. reflexivity.
Qed.

(** C4 (amended).  [serializeWindowReference] on a live target [t] other
    than the source checks the parent first (when distinct from the
    source), then the opener (when distinct from the source), and only then
    runs [transverseLevel], whose first check is the for-in loop over
    [window.frames]: a parent target gives ["p"], otherwise an opener
    target gives ["o"], otherwise a key [k] found by the frame check gives
    ["f," + k], and an exception the frame check re-throws propagates.
    The frame check finds nothing when [window.frames[0] instanceof Window]
    is false (every child frame, in standards browsers); when the guard
    holds and the only enumerable keys are the frame indices, the key found
    is the first index [i] of the target among the frames. *)
Theorem C4_serialize_priority (fuel : nat) (g : window_graph) (w t : win) :
  w <> t ->
  (parent g w = Some t ->
   serializeWindowReference (S fuel) g w (TWindow t) = inl "p") /\
  (parent g w <> Some t -> opener g w = Some t ->
   serializeWindowReference (S fuel) g w (TWindow t) = inl "o") /\
  (forall k, parent g w <> Some t -> opener g w <> Some t ->
   direct_frame_check g w t = FrameFound k ->
   serializeWindowReference (S fuel) g w (TWindow t) = inl ("f," ++ k)) /\
  (forall n, parent g w <> Some t -> opener g w <> Some t ->
   direct_frame_check g w t = FrameThrows n ->
   serializeWindowReference (S fuel) g w (TWindow t) = inr (ErrSearch n)) /\
  (frame0_instanceof_Window g w = NotWindow ->
   forall k, direct_frame_check g w t <> FrameFound k) /\
  (forall i, frame0_instanceof_Window g w = IsWindow ->
   frames_forin g w = index_keys (frames g w) ->
   list_index_of (frames g w) t 0 = Some i ->
   direct_frame_check g w t = FrameFound (string_of_nat i)).
Proof.
  intro Hwt.
  assert (Hne : Nat.eqb w t = false) by (apply Nat.eqb_neq; exact Hwt).
  assert (Hsk : forall o : option win, o <> Some t ->
            match o with
            | Some p => negb (Nat.eqb p w) && Nat.eqb p t
            | None => false end = false /\ win_is o t = false).
  { intros [p|] Ho; [|split; reflexivity].
    assert (Nat.eqb p t = false) by (apply Nat.eqb_neq; congruence).
    rewrite H, andb_false_r. split; [reflexivity|exact H]. }
  split; [|split; [|split; [|split; [|split]]]].
  - intro Hp. unfold serializeWindowReference. rewrite Hne, Hp.
    assert (Nat.eqb t w = false) by (apply Nat.eqb_neq; congruence).
    rewrite H, Nat.eqb_refl. reflexivity.
  - intros Hp Ho. unfold serializeWindowReference. rewrite Hne.
    destruct (Hsk _ Hp) as [Hp1 _]. rewrite Hp1, Ho.
    assert (Nat.eqb t w = false) by (apply Nat.eqb_neq; congruence).
    rewrite H, Nat.eqb_refl. reflexivity.
  - intros k Hp Ho Hf. unfold serializeWindowReference. rewrite Hne.
    destruct (Hsk _ Hp) as [Hp1 _].
    destruct (Hsk _ Ho) as [Ho1 _]. rewrite Hp1, Ho1.
    simpl. rewrite Hf. reflexivity.
  - intros n Hp Ho Hf. unfold serializeWindowReference. rewrite Hne.
    destruct (Hsk _ Hp) as [Hp1 _].
    destruct (Hsk _ Ho) as [Ho1 _]. rewrite Hp1, Ho1.
    simpl. rewrite Hf. reflexivity.
  - intros Hg k. unfold direct_frame_check. rewrite Hg.
    destruct (Nat.ltb 0 _); [|discriminate].
    destruct (forin_frames NotWindow _ t) as [k'| |n] eqn:E.
    + intro Hk. injection Hk as <-. exact (forin_frames_not_window _ _ _ E).
    + discriminate.
    + destruct (number_is n E_UNDEFINED); discriminate.
  - intros i Hg Hk Hi. unfold direct_frame_check. rewrite Hg, Hk.
    unfold index_keys. rewrite forin_frames_index_keys, Hi.
    destruct (frames g w) as [|f fs]; [discriminate|reflexivity].
Qed.

Lemma C4_serialize_priority_witness :
  serializeWindowReference 1 frame_parent_graph 0 (TWindow 1) = inl "p" /\
  serializeWindowReference 1 opener_graph 2 (TWindow 1) = inl "f,0" /\
  direct_frame_check opener_graph 2 1 = FrameFound "0" /\
  (forall k, direct_frame_check standards_graph 0 1 <> FrameFound k).
Proof.
  split; [|split; [|split]].
  - apply (proj1 (C4_serialize_priority 0 frame_parent_graph 0 1 ltac:(discriminate))).
    reflexivity.
  - apply (proj1 (proj2 (proj2 (C4_serialize_priority 0 opener_graph 2 1 ltac:(discriminate))))
             "0"); [discriminate|discriminate|reflexivity].
  - apply (proj2 (proj2 (proj2 (proj2 (proj2
             (C4_serialize_priority 0 opener_graph 2 1 ltac:(discriminate))))))
             0); reflexivity.
  - apply (proj1 (proj2 (proj2 (proj2 (proj2
             (C4_serialize_priority 0 standards_graph 0 1 ltac:(discriminate))))))).
    reflexivity.
Defined.

(** ** Claims on origin matching *)

(** C7 (counterexample).  The wildcard rule ["*"] is a string different
    from the origin ["http://a.com"], yet it matches it. *)
Lemma C7_wildcard_distinct_match :
  "*" <> "http://a.com" /\ isOriginMatch (RString "*") (Some "http://a.com") = true.
Proof. split; [discriminate|reflexivity]. Qed.

(** C7 (amended).  [isOriginMatch("*", o)] and [isOriginMatch(o, o)] are
    true for every origin string [o]; for distinct strings [o1], [o2] with
    [o1] not the wildcard ["*"], [isOriginMatch(o1, o2)] is false. *)
Theorem C7_string_rule_match :
  (forall o, isOriginMatch (RString "*") (Some o) = true) /\
  (forall o, isOriginMatch (RString o) (Some o) = true) /\
  (forall o1 o2, o1 <> o2 -> o1 <> "*" ->
   isOriginMatch (RString o1) (Some o2) = false).
Proof.
  split; [|split].
  - intro o. simpl. rewrite andb_false_r. reflexivity.
  - intro o. simpl. rewrite String.eqb_refl. reflexivity.
  - intros o1 o2 H1 H2. simpl.
    apply String.eqb_neq in H2. rewrite H2.
    assert (String.eqb o2 o1 = false) by (apply String.eqb_neq; congruence).
    rewrite H. reflexivity.
Qed.

Lemma C7_string_rule_match_witness :
  "http://a.com" <> "http://b.com" /\ "http://a.com" <> "*" /\
  isOriginMatch (RString "http://a.com") (Some "http://b.com") = false.
Proof.
  split; [discriminate|split; [discriminate|]].
  apply (proj2 (proj2 C7_string_rule_match)); discriminate.
Defined.

(** C10.  A rule that is neither a string nor a function (number, NaN,
    boolean, RegExp, object, null, undefined) matches every origin. *)
Theorem C10_other_rule_matches_all (r : allow_rule) (o : js_origin) :
  is_string_rule r = false -> is_function_rule r = false ->
  isOriginMatch r o = true.
Proof. destruct r; simpl; congruence. Qed.

Lemma C10_other_rule_matches_all_witness :
  isOriginMatch (RRegExp "foo") (Some "http://evil.com") = true.
Proof. apply C10_other_rule_matches_all; reflexivity. Defined.

(** ** Claims on the sender *)

(** C2 (counterexample).  Sending to the sending window itself when the
    native [postMessage] works returns normally after the native call. *)
Lemma C2_self_send_native :
  postMessage 10 native_env initial_page "hi" (Some "http://a.com") (Some 0) None
  = (SentNative 0 "hi" "http://a.com", initial_page).
Proof. reflexivity. Qed.

(** [serializeWindowReference(w, w)] always throws the self-reference
    error. *)
Lemma serialize_self (fuel : nat) (g : window_graph) (w : win) :
  serializeWindowReference fuel g w (TWindow w) = inr ErrSelfReference.
Proof. unfold serializeWindowReference. rewrite Nat.eqb_refl. reflexivity. Qed.

(** C2 (amended).  [$.postMessage] with the sending window as target and
    no window name runs the native call first, then the target's hook;
    it throws the self-reference error exactly when both fall through
    (native [postMessage] missing or failing with "No such interface
    supported", and the hook absent, unreachable or throwing), and the
    page state is unchanged in every case. *)
Theorem C2_self_send (fuel : nat) (env : send_env) (st : page_state)
  (message host : string) (name : option string) :
  truthy_str (Some host) = true -> truthy_str name = false ->
  postMessage fuel env st message (Some host) (Some (env_window env)) name =
  match native_step env (env_window env) message (getDomainFromUrl host) with
  | Some r => (r, st)
  | None =>
    match hook_step env (env_window env) message (getDomainFromUrl host) with
    | Some r => (r, st)
    | None => (Thrown ErrSelfReference, st)
    end
  end.
Proof.
  intros Hh Hn. unfold postMessage. rewrite Hh. cbn [negb].
  destruct (native_step _ _ _ _); [reflexivity|].
  destruct (hook_step _ _ _ _); [reflexivity|].
  destruct name as [n|]; [rewrite Hn|];
    unfold proxy_step; rewrite serialize_self; reflexivity.
Qed.

Lemma C2_self_send_witness :
  postMessage 10 legacy_env initial_page "hi" (Some "http://a.com") (Some 0) None
  = (Thrown ErrSelfReference, initial_page).
Proof. apply (C2_self_send 10 legacy_env initial_page "hi" "http://a.com" None); reflexivity. Defined.




(** ** Claims on the receiver *)

(** Registrations on a page that already has its native listener only
    append entries. *)
Lemma receive_all_append (regs : list (callback_id * allow_rule)) :
  forall hs,
  receive_all (map (fun r => (Some (fst r), snd r)) regs)
    {| message_handlers := Some hs; native_listeners := 1 |}
  = inr {| message_handlers := Some (hs ++ map entry_of regs)%list;
           native_listeners := 1 |}.
Proof.
  induction regs as [|[c r] regs IH]; intro hs; simpl.
  - rewrite app_nil_r. reflexivity.
  - unfold jq_on. simpl. rewrite IH, <- app_assoc. reflexivity.
Qed.

Lemma dispatch_native (hs : list handler_entry) (ne : native_event) :
  jq_dispatch {| message_handlers := Some hs; native_listeners := 1 |}
    {| originalEvent := Some ne; ev_data := None; ev_origin := None |} []
  = flat_map (fun h =>
      if isOriginMatch (h_rule h) (Some (ne_origin ne))
      then [(h_callback h, {| rec_data := Some (ne_data ne);
                              rec_origin := Some (ne_origin ne) |})]
      else []) hs.
Proof.
  unfold jq_dispatch. simpl. apply flat_map_ext. intro h.
  unfold message_handler, checked_origin, reported_origin, event_data,
    event_origin. simpl.
  destruct (isOriginMatch (h_rule h) (Some (ne_origin ne))); reflexivity.
Qed.

(** C5.  However many times [$.receiveMessage] is called on a fresh page,
    jQuery attaches at most one native listener; the handler table holds
    one entry per call, in order; and a native event reaches, once each,
    exactly the entries whose rule matches its origin, with the event's
    data and origin. *)
Theorem C5_single_listener_all_entries
  (regs : list (callback_id * allow_rule)) (ne : native_event) :
  exists w,
    receive_all (map (fun r => (Some (fst r), snd r)) regs) empty_jq_window = inr w /\
    native_listeners w <= 1 /\
    (regs <> [] -> message_handlers w = Some (map entry_of regs)) /\
    deliver_native w ne = native_invocations regs ne.
Proof.
  destruct regs as [|r regs].
  - exists empty_jq_window. repeat split; [auto|congruence].
  - exists {| message_handlers := Some (map entry_of (r :: regs));
              native_listeners := 1 |}.
    split; [|split; [auto|split; [reflexivity|]]].
    + simpl. unfold jq_on. simpl.
      exact (receive_all_append regs [entry_of r]).
    + unfold deliver_native. cbn [native_listeners repeat concat].
      rewrite app_nil_r, dispatch_native. unfold native_invocations.
      generalize (r :: regs) as l.
      induction l as [|x l IH]; [reflexivity|].
      simpl. rewrite IH. reflexivity.
Qed.

(** C6.  The direct call of the target's hook (line 303) passes the raw
    message, while the proxy path (line 330) passes
    [encodeURIComponent(message)], and the hook decodes what it gets.  In a
    browser without [window.postMessage], ["%41"] sent to window [1] goes
    through the direct hook call unencoded; on a page with one wildcard
    registration the hook delivers the data ["A"] (and no origin), where
    the native listener delivers ["%41"] with its origin and the proxy
    path, which sends ["%2541"], delivers ["%41"].  A message ["%"] sent
    the same way makes the hook throw [URIError], which the empty [catch]
    of the hook call swallows; the message then goes through the proxy,
    encoded. *)
Theorem C6_direct_hook_unencoded :
  postMessage 10 direct_hook_env initial_page "%41" (Some "http://b.com") (Some 1) None
  = (SentHook 1 "%41" "http://b.com", initial_page) /\
  receiveMessageHook wildcard_page "%41" "http://b.com"
  = inr [(1, {| rec_data := Some "A"; rec_origin := None |})] /\
  deliver_native wildcard_page {| ne_data := "%41"; ne_origin := "http://b.com" |}
  = [(1, {| rec_data := Some "%41"; rec_origin := Some "http://b.com" |})] /\
  encodeURIComponent "%41" = "%2541" /\
  receiveMessageHook wildcard_page (encodeURIComponent "%41") "http://b.com"
  = inr [(1, {| rec_data := Some "%41"; rec_origin := None |})] /\
  receiveMessageHook wildcard_page "%" "http://b.com" = inl ErrURI /\
  postMessage 10 direct_hook_env initial_page "%" (Some "http://b.com") (Some 1) None
  = (SentProxy "http://b.com/vp/JS-Lib/jQuery/plugins/postmessage.htm#10001&o&http://a.com&%25",
     {| cacheBuster := 2;
        proxy_iframes :=
          ["http://b.com/vp/JS-Lib/jQuery/plugins/postmessage.htm#10001&o&http://a.com&%25"] |}).
Proof. repeat split. Qed.

(** C8 (counterexample).  A synthesized event (no [originalEvent]) whose
    own origin is ["http://a.com"], handled with the caller-supplied origin
    ["http://b.com"] and the rule ["http://b.com"]: the callback is called,
    although the rule rejects the event's own origin. *)
Lemma C8_supplied_origin_validated :
  message_handler (RString "http://b.com") 7
    {| originalEvent := None; ev_data := None; ev_origin := Some "http://a.com" |}
    (Some "x") (Some "http://b.com")
  = Some (7, {| rec_data := Some "x"; rec_origin := Some "http://b.com" |}) /\
  isOriginMatch (RString "http://b.com") (Some "http://a.com") = false.
Proof. split; reflexivity. Qed.

(** C8 (amended).  For an event wrapping a native event, the rule is
    checked against the native event's own origin, whatever origin is
    reported; for a synthesized event (no [originalEvent]) it is checked
    against the reported origin (the caller-supplied origin when truthy,
    otherwise the event's own [origin]). *)
Theorem C8_checked_origin (rule : allow_rule) (cb : callback_id) (ev : jq_event)
  (data origin : option string) :
  (forall ne, originalEvent ev = Some ne ->
     (message_handler rule cb ev data origin <> None <->
      isOriginMatch rule (Some (ne_origin ne)) = true)) /\
  (originalEvent ev = None ->
     (message_handler rule cb ev data origin <> None <->
      isOriginMatch rule (reported_origin ev origin) = true) /\
     (forall inv, message_handler rule cb ev data origin = Some inv ->
      rec_origin (snd inv) = reported_origin ev origin)).
Proof.
  unfold message_handler, checked_origin.
  split; [intros ne He|intro He; split]; rewrite He.
  - destruct (isOriginMatch rule _); split; congruence.
  - destruct (isOriginMatch rule _); split; congruence.
  - intros inv Hi. destruct (isOriginMatch rule _); [|discriminate].
    injection Hi as <-. reflexivity.
Qed.

Lemma C8_checked_origin_witness :
  message_handler (RString "http://b.com") 7
    {| originalEvent := None; ev_data := None; ev_origin := Some "http://a.com" |}
    (Some "x") (Some "http://b.com") <> None.
Proof.
  apply (proj2 (proj1 (proj2 (C8_checked_origin (RString "http://b.com") 7
    {| originalEvent := None; ev_data := None; ev_origin := Some "http://a.com" |}
    (Some "x") (Some "http://b.com")) eq_refl))).
  reflexivity.
Defined.

(** ** Lemmas on the delimited-string codec *)

Lemma prefix_single (c b : ascii) (s : string) :
  String.prefix (String c "") (String b s) = Ascii.eqb c b.
Proof.
  destruct (String.prefix (String c "") (String b s)) eqn:E.
  - apply prefix_correct in E. simpl in E. injection E as ->.
    symmetry. apply Ascii.eqb_refl.
  - destruct (Ascii.eqb_spec c b) as [->|]; [|reflexivity].
    exfalso. assert (H : substring 0 (String.length (String b "")) (String b s) = String b "")
      by (destruct s; reflexivity).
    apply prefix_correct in H. congruence.
Qed.

Lemma str_app_nil_r (s : string) : s ++ "" = s.
Proof. induction s as [|c s IH]; simpl; [reflexivity|rewrite IH; reflexivity]. Qed.

Lemma str_app_assoc (a b c : string) : a ++ b ++ c = (a ++ b) ++ c.
Proof. induction a as [|x a IH]; simpl; [reflexivity|rewrite IH; reflexivity]. Qed.

Lemma split_go_step (c b : ascii) (s cur : string) :
  split_go (String c "") (String b s) 0 cur =
  if Ascii.eqb c b then cur :: split_go (String c "") s 0 ""
  else split_go (String c "") s 0 (cur ++ String b "").
Proof.
  transitivity (if String.prefix (String c "") (String b s)
                then cur :: split_go (String c "") s 0 ""
                else split_go (String c "") s 0 (cur ++ String b ""));
    [reflexivity|].
  rewrite prefix_single. reflexivity.
Qed.

(** Splitting on one character distributes over a separator occurrence. *)
Lemma split_go_app (c : ascii) (s1 s2 cur : string) :
  split_go (String c "") (s1 ++ String c s2) 0 cur =
  (split_go (String c "") s1 0 cur ++ split_go (String c "") s2 0 "")%list.
Proof.
  revert cur. induction s1 as [|b s1 IH]; intro cur.
  - simpl (EmptyString ++ _). rewrite split_go_step, Ascii.eqb_refl. reflexivity.
  - simpl (String b s1 ++ _). rewrite !split_go_step.
    destruct (Ascii.eqb c b); [rewrite IH; reflexivity|apply IH].
Qed.

Lemma split_go_no_char (c : ascii) (s cur : string) :
  contains_char c s = false ->
  split_go (String c "") s 0 cur = [cur ++ s].
Proof.
  revert cur. induction s as [|b s IH]; intros cur H.
  - simpl. rewrite str_app_nil_r. reflexivity.
  - simpl in H. apply orb_false_iff in H as [Hb Hs].
    rewrite split_go_step, Hb, IH by exact Hs.
    rewrite <- str_app_assoc. reflexivity.
Qed.

(** [join] then [split] on one character gives the pieces back when none
    contains it. *)
Lemma split_join (c : ascii) (l : list string) :
  l <> [] -> Forall (fun x => contains_char c x = false) l ->
  js_split (js_join (String c "") l) (String c "") = l.
Proof.
  intros Hne Hl. unfold js_split, js_join. simpl (String.eqb _ _). cbv iota.
  induction l as [|x l IH]; [congruence|].
  inversion Hl as [|? ? Hx Hl']; subst.
  destruct l as [|y l].
  - simpl. rewrite split_go_no_char by exact Hx. reflexivity.
  - change (String.concat (String c "") (x :: y :: l))
      with (x ++ String c "" ++ String.concat (String c "") (y :: l)).
    simpl (String c "" ++ _).
    rewrite split_go_app, split_go_no_char by exact Hx.
    change (match l with
            | [] => y
            | _ :: _ => y ++ String c (String.concat (String c "") l)
            end) with (String.concat (String c "") (y :: l)).
    rewrite IH by (discriminate || exact Hl'). reflexivity.
Qed.

Lemma str_length_app (a b : string) :
  String.length (a ++ b) = String.length a + String.length b.
Proof. induction a as [|x a IH]; simpl; [reflexivity|rewrite IH; reflexivity]. Qed.

Lemma substring_prefix (k x : string) :
  substring 0 (String.length k) (k ++ x) = k.
Proof.
  induction k as [|c k IH]; simpl; [destruct x; reflexivity|rewrite IH; reflexivity].
Qed.

Lemma substring_skip (k s : string) (n m : nat) :
  substring (String.length k + n) m (k ++ s) = substring n m s.
Proof. induction k as [|c k IH]; simpl; [reflexivity|exact IH]. Qed.

Lemma substring_whole (v : string) : substring 0 (String.length v) v = v.
Proof. pose proof (substring_prefix v "") as H. rewrite str_app_nil_r in H. exact H. Qed.

Lemma index_single_step (e b : ascii) (s : string) :
  String.index 0 (String e "") (String b s) =
  if Ascii.eqb e b then Some 0
  else match String.index 0 (String e "") s with Some n => Some (S n) | None => None end.
Proof.
  transitivity (if String.prefix (String e "") (String b s) then Some 0
    else match String.index 0 (String e "") s with Some n => Some (S n) | None => None end);
    [reflexivity|].
  rewrite prefix_single. reflexivity.
Qed.

Lemma indexOf_single (e : ascii) (k v : string) :
  contains_char e k = false ->
  js_indexOf (k ++ String e v) (String e "") = Some (String.length k).
Proof.
  unfold js_indexOf. induction k as [|b k IH]; intro H.
  - simpl (EmptyString ++ _). rewrite index_single_step, Ascii.eqb_refl. reflexivity.
  - simpl in H. apply orb_false_iff in H as [Hb Hk].
    simpl (String b k ++ _). rewrite index_single_step, Hb, IH by exact Hk.
    reflexivity.
Qed.

(** One well-formed item [k e v] sets the property [kd k] to [vd v]. *)
Lemma parse_pair_item (e : ascii) (kd vd : string -> string) (ret : js_object)
  (k v : string) :
  k <> "" -> contains_char e k = false ->
  parse_pair (String e "") kd vd ret (k ++ String e v) = obj_set (kd k) (vd v) ret.
Proof.
  intros Hk He. unfold parse_pair.
  rewrite indexOf_single by exact He.
  rewrite str_length_app. simpl (String.length (String e v)).
  destruct k as [|b k]; [congruence|].
  cbn [String.length].
  replace (Nat.ltb 0 (S (String.length k) + S (String.length v))) with true
    by (symmetry; apply Nat.ltb_lt; lia).
  replace (Nat.ltb 0 (S (String.length k))) with true
    by (symmetry; apply Nat.ltb_lt; lia).
  replace (Nat.leb (S (String.length k)) (S (String.length k) + S (String.length v) - 1))
    with true by (symmetry; apply Nat.leb_le; lia).
  simpl andb. cbv zeta.
  change (S (String.length k)) with (String.length (String b k)).
  rewrite substring_prefix.
  unfold substring_from. rewrite str_length_app.
  replace (String.length (String b k) + String.length (String e v) -
           (String.length (String b k) + 1)) with (String.length v)
    by (simpl; lia).
  rewrite substring_skip. simpl. rewrite substring_whole. reflexivity.
Qed.

Lemma own_property_app (k : string) (a b : js_object) :
  own_property k (a ++ b)%list =
  match own_property k a with Some v => Some v | None => own_property k b end.
Proof.
  induction a as [|[k' v'] a IH]; simpl; [reflexivity|].
  destruct (String.eqb k k'); [reflexivity|exact IH].
Qed.

Lemma own_property_set (k k' v : string) (o : js_object) :
  k' <> "__proto__" ->
  own_property k (obj_set k' v o) = if String.eqb k k' then Some v else own_property k o.
Proof.
  intro Hp. apply String.eqb_neq in Hp.
  induction o as [|[k0 v0] o IH]; simpl; rewrite Hp; [reflexivity|].
  destruct (String.eqb_spec k' k0) as [->|Hne]; simpl.
  - destruct (String.eqb k k0); reflexivity.
  - rewrite IH. destruct (String.eqb_spec k k0) as [->|]; [|reflexivity].
    apply String.eqb_neq in Hne. rewrite String.eqb_sym, Hne. reflexivity.
Qed.

Lemma own_property_fold_set (k : string) (l : js_object) :
  Forall (fun p => fst p <> "__proto__") l ->
  forall o,
  own_property k (fold_left (fun o p => obj_set (fst p) (snd p) o) l o) =
  match own_property k (rev l) with Some v => Some v | None => own_property k o end.
Proof.
  induction l as [|[k' v'] l IH]; intros Hl o; [reflexivity|].
  inversion Hl as [|? ? Hp Hl']; subst. simpl fold_left.
  rewrite IH by exact Hl'. simpl rev. rewrite own_property_app.
  rewrite own_property_set by exact Hp. simpl.
  destruct (own_property k (rev l)); [reflexivity|].
  destruct (String.eqb k k'); reflexivity.
Qed.

Lemma own_property_absent (k : string) (l : js_object) :
  ~ In k (map fst l) -> own_property k l = None.
Proof.
  induction l as [|[k' v'] l IH]; intro H; [reflexivity|].
  simpl in *. destruct (String.eqb_spec k k') as [->|]; [tauto|].
  apply IH. tauto.
Qed.

Lemma own_property_rev (k : string) (l : js_object) :
  NoDup (map fst l) -> own_property k (rev l) = own_property k l.
Proof.
  induction l as [|[k' v'] l IH]; intro Hd; [reflexivity|].
  inversion Hd as [|? ? Hn Hd']; subst.
  simpl rev. rewrite own_property_app, IH by exact Hd'. simpl.
  destruct (String.eqb_spec k k') as [->|].
  - rewrite own_property_absent by exact Hn. reflexivity.
  - destruct (own_property k l); reflexivity.
Qed.

Lemma contains_char_app (c : ascii) (a b : string) :
  contains_char c (a ++ b) = contains_char c a || contains_char c b.
Proof.
  induction a as [|x a IH]; simpl; [reflexivity|].
  rewrite IH, orb_assoc. reflexivity.
Qed.

Lemma fold_parse_items (e : ascii) (ke ve kd vd : string -> string) (l : js_object) :
  Forall (fun kv : string * string =>
     ke (fst kv) <> "" /\ contains_char e (ke (fst kv)) = false /\
     kd (ke (fst kv)) = fst kv /\ vd (ve (snd kv)) = snd kv) l ->
  forall o,
  fold_left (parse_pair (String e "") kd vd)
    (map (fun kv => ke (fst kv) ++ String e (ve (snd kv))) l) o =
  fold_left (fun o p => obj_set (fst p) (snd p) o) l o.
Proof.
  induction l as [|[k v] l IH]; intros Hl o; [reflexivity|].
  inversion Hl as [|? ? [Hk [He [Hkd Hvd]]] Hl']; subst. simpl in *.
  rewrite parse_pair_item by assumption. rewrite Hkd, Hvd. apply IH, Hl'.
Qed.

(** [$.parseDelimitedString] undoes [$.encodeDelimitedString]: with
    one-character item and pair delimiters [c] <> [e], decoders inverse to
    the encoders, encoded keys non-empty and free of both delimiters,
    encoded values free of [c], and no own key ["__proto__"], every own
    property of [data] is read back with its value, and no other
    property appears. *)
Theorem delimited_roundtrip (c e : ascii) (props : enumerated_props)
  (ke ve kd vd : string -> string) :
  c <> e ->
  NoDup (map fst (map fst (filter snd props))) ->
  Forall (fun kv : string * string =>
     ke (fst kv) <> "" /\ contains_char c (ke (fst kv)) = false /\
     contains_char e (ke (fst kv)) = false /\ contains_char c (ve (snd kv)) = false /\
     kd (ke (fst kv)) = fst kv /\ vd (ve (snd kv)) = snd kv /\
     fst kv <> "__proto__")
    (map fst (filter snd props)) ->
  forall k,
  own_property k
    (parseDelimitedString
       (Some (encodeDelimitedString (Some props) (String c "") (String e "") (Some ke) (Some ve)))
       (String c "") (String e "") (Some kd) (Some vd))
  = own_property k (map fst (filter snd props)).
Proof.
  intros Hce Hnd Hwf k.
  assert (Henc : encodeDelimitedString (Some props) (String c "") (String e "") (Some ke) (Some ve)
          = js_join (String c "") (map (fun kv => ke (fst kv) ++ String e (ve (snd kv)))
                                       (map fst (filter snd props))))
    by (unfold encodeDelimitedString; simpl; rewrite map_map; reflexivity).
  rewrite Henc. clear Henc.
  remember (map fst (filter snd props)) as own eqn:Eo. clear Eo.
  unfold parseDelimitedString. simpl coder_or_identity. cbv zeta.
  destruct own as [|[k0 v0] rest]; [reflexivity|].
  assert (Hne : exists a t, ke k0 ++ String e (ve v0) = String a t)
    by (destruct (ke k0); simpl; eauto).
  destruct Hne as [a [t Ha]].
  replace (truthy_str (Some (js_join (String c "")
             (map (fun kv => ke (fst kv) ++ String e (ve (snd kv))) ((k0, v0) :: rest)))))
    with true
    by (unfold js_join; simpl map; destruct rest; simpl; rewrite Ha; reflexivity).
  assert (Hce' : Ascii.eqb c e = false) by (apply Ascii.eqb_neq; exact Hce).
  rewrite split_join.
  2: discriminate.
  2: { apply Forall_map. eapply Forall_impl; [|exact Hwf].
       intros kv [_ [Hc [_ [Hv _]]]]. simpl.
       rewrite contains_char_app, Hc. simpl. rewrite Hce', Hv. reflexivity. }
  rewrite fold_parse_items.
  2: { eapply Forall_impl; [|exact Hwf]. intros kv H; cbv beta in *; tauto. }
  rewrite own_property_fold_set.
  2: { eapply Forall_impl; [|exact Hwf]. intros kv H; cbv beta in *; tauto. }
  rewrite own_property_rev by exact Hnd.
  simpl own_property at 2.
  destruct (own_property k ((k0, v0) :: rest)); reflexivity.
Qed.

Lemma delimited_roundtrip_witness :
  own_property "b"
    (parseDelimitedString
       (Some (encodeDelimitedString (Some [("a", "1", true); ("b", "x=y", true); ("c", "3", false)])
                (String "&" "") (String "=" "") (Some (fun s => s)) (Some (fun s => s))))
       (String "&" "") (String "=" "") (Some (fun s => s)) (Some (fun s => s)))
  = Some "x=y".
Proof.
  apply (delimited_roundtrip "&" "=" [("a", "1", true); ("b", "x=y", true); ("c", "3", false)]
           (fun s => s) (fun s => s) (fun s => s) (fun s => s)).
  - discriminate.
  - simpl. repeat constructor; simpl; intuition discriminate.
  - simpl. repeat constructor; discriminate.
Defined.

Lemma fold_left_parse_app (e : string) (kd vd : string -> string) (a b : list string)
  (o : js_object) :
  fold_left (parse_pair e kd vd) (a ++ b)%list o =
  fold_left (parse_pair e kd vd) b (fold_left (parse_pair e kd vd) a o).
Proof. apply fold_left_app. Qed.

(** The last item wins: appending [c k e v] to any delimited string sets
    the property [k] to [v], whatever came before (one-character
    delimiters, identity decoders, [k] non-empty, free of both delimiters
    and not ["__proto__"], [v] free of [c]). *)
Theorem parse_last_item_wins (c e : ascii) (s1 k v : string) :
  k <> "" -> contains_char c k = false -> contains_char e k = false ->
  contains_char c v = false -> k <> "__proto__" -> c <> e ->
  own_property k
    (parseDelimitedString (Some (s1 ++ String c (k ++ String e v)))
       (String c "") (String e "") None None) = Some v.
Proof.
  intros Hk Hck Hek Hcv Hp Hce.
  unfold parseDelimitedString. simpl coder_or_identity. cbv zeta.
  replace (truthy_str (Some (s1 ++ String c (k ++ String e v)))) with true
    by (destruct s1; reflexivity).
  unfold js_split. simpl (String.eqb (String c "") "").
  cbv iota.
  rewrite split_go_app, (split_go_no_char c (k ++ String e v) "").
  2: { rewrite contains_char_app, Hck. simpl.
       rewrite (proj2 (Ascii.eqb_neq c e) Hce), Hcv. reflexivity. }
  rewrite fold_left_parse_app. simpl fold_left.
  rewrite parse_pair_item by assumption.
  rewrite own_property_set by exact Hp. rewrite String.eqb_refl. reflexivity.
Qed.

Lemma parse_last_item_wins_witness :
  own_property "a"
    (parseDelimitedString (Some ("a=1&b=2" ++ String "&" ("a" ++ String "=" "3")))
       (String "&" "") (String "=" "") None None) = Some "3".
Proof.
  apply parse_last_item_wins; (discriminate || reflexivity).
Defined.

Lemma indexOf_single_before (e : ascii) (s : string) (i : nat) :
  js_indexOf s (String e "") = Some i -> contains_char e (substring 0 i s) = false.
Proof.
  unfold js_indexOf. revert i. induction s as [|b s IH]; intros i H.
  - discriminate.
  - rewrite index_single_step in H.
    destruct (Ascii.eqb e b) eqn:Eb.
    + injection H as <-. reflexivity.
    + destruct (String.index 0 (String e "") s) as [n|] eqn:En; [|discriminate].
      injection H as <-. simpl. rewrite Eb. apply IH. reflexivity.
Qed.

Lemma obj_set_keys (P : string -> Prop) (k v : string) (o : js_object) :
  Forall (fun p => P (fst p)) o -> (k <> "__proto__" -> P k) ->
  Forall (fun p => P (fst p)) (obj_set k v o).
Proof.
  intros Ho Hk. induction o as [|[k' v'] o IH]; simpl;
    (destruct (String.eqb_spec k "__proto__"); [assumption|]).
  - constructor; [apply Hk; assumption|constructor].
  - inversion Ho as [|? ? Hk' Ho']; subst.
    destruct (String.eqb_spec k k') as [->|].
    + constructor; assumption.
    + constructor; [exact Hk'|apply IH, Ho'].
Qed.

(** Every property [$.parseDelimitedString] produces (identity decoders,
    one-character pair delimiter [e]) has a non-empty key that contains
    no [e] and is not ["__proto__"]: items with an empty key or without
    the pair delimiter are skipped. *)
Theorem parse_keys_wellformed (s : option string) (itemDelimiter : string) (e : ascii) :
  Forall (fun p => fst p <> "" /\ contains_char e (fst p) = false /\ fst p <> "__proto__")
    (parseDelimitedString s itemDelimiter (String e "") None None).
Proof.
  unfold parseDelimitedString. simpl coder_or_identity. cbv zeta.
  destruct s as [s|]; [|constructor].
  destruct (truthy_str (Some s)); [|constructor].
  generalize (@nil (string * string)) (Forall_nil (fun p : string * string =>
    fst p <> "" /\ contains_char e (fst p) = false /\ fst p <> "__proto__")).
  induction (js_split s itemDelimiter) as [|pair pairs IH]; intros o Ho; [exact Ho|].
  simpl. apply IH. unfold parse_pair.
  destruct (Nat.ltb 0 (String.length pair)); [|exact Ho].
  destruct (js_indexOf pair (String e "")) as [i|] eqn:Ei; [|exact Ho].
  destruct (Nat.ltb_spec 0 i); [|exact Ho].
  destruct (Nat.leb_spec i (String.length pair - 1)); [|exact Ho].
  simpl andb. cbv iota zeta.
  apply (obj_set_keys (fun k => k <> "" /\ contains_char e k = false /\ k <> "__proto__"));
    [exact Ho|].
  intro Hp. split; [|split; [apply indexOf_single_before, Ei|exact Hp]].
  destruct i as [|i]; [lia|].
  destruct pair as [|b pair]; simpl in *; [lia|discriminate].
Qed.

(** With a pair delimiter of more than one character, the value starts
    right after the delimiter's first character ([pair.substring(delimIndex
    + 1)]): parsing [k ++ a d' ++ v] with pair delimiter [a d'] gives the
    value [d' ++ v]. *)
Theorem parse_multichar_pair_delimiter (c a : ascii) (d' k v : string) :
  k <> "" -> k <> "__proto__" ->
  contains_char c (k ++ String a d' ++ v) = false ->
  js_indexOf (k ++ String a d' ++ v) (String a d') = Some (String.length k) ->
  parseDelimitedString (Some (k ++ String a d' ++ v)) (String c "") (String a d') None None
  = [(k, d' ++ v)].
Proof.
  intros Hk Hp Hc Hi.
  unfold parseDelimitedString. simpl coder_or_identity. cbv zeta.
  replace (truthy_str (Some (k ++ String a d' ++ v))) with true
    by (destruct k; [congruence|reflexivity]).
  unfold js_split. simpl (String.eqb (String c "") ""). cbv iota.
  rewrite split_go_no_char by exact Hc. simpl fold_left.
  unfold parse_pair.
  change (String a d' ++ v) with (String a (d' ++ v)) in Hi.
  rewrite Hi, str_length_app.
  destruct k as [|b k']; [congruence|]. cbn [String.length].
  replace (Nat.ltb 0 (S (String.length k') + S (String.length (d' ++ v)))) with true
    by (symmetry; apply Nat.ltb_lt; lia).
  replace (Nat.ltb 0 (S (String.length k'))) with true
    by (symmetry; apply Nat.ltb_lt; lia).
  replace (Nat.leb (S (String.length k')) (S (String.length k') + S (String.length (d' ++ v)) - 1))
    with true by (symmetry; apply Nat.leb_le; lia).
  simpl andb. cbv iota zeta.
  change (S (String.length k')) with (String.length (String b k')).
  rewrite substring_prefix.
  unfold substring_from. rewrite str_length_app.
  replace (String.length (String b k') + String.length (String a (d' ++ v)) -
           (String.length (String b k') + 1)) with (String.length (d' ++ v))
    by (simpl; lia).
  rewrite substring_skip. simpl (substring 1 _ _). rewrite substring_whole.
  apply String.eqb_neq in Hp. unfold obj_set. rewrite Hp. reflexivity.
Qed.

Lemma parse_multichar_pair_delimiter_witness :
  parseDelimitedString (Some ("k" ++ String ":" "=" ++ "v")) (String "&" "") (String ":" "=")
    None None = [("k", "=v")].
Proof.
  apply parse_multichar_pair_delimiter; (discriminate || reflexivity).
Defined.

(* ------------------------------------------------------------------ *)
(** ** $.postMessage: page state, fallbacks and the proxy payload *)

(** Only the proxy path writes the page state: it increments
    [cacheBuster] and appends one iframe whose [src] is the one returned;
    every other outcome, errors included, leaves the page as it was. *)
Theorem postMessage_page_state (fuel : nat) (env : send_env) (st : page_state)
  (message : string) (targetHost : option string) (targetWindow : option win)
  (targetWindowName : option string) :
  match postMessage fuel env st message targetHost targetWindow targetWindowName with
  | (SentProxy src, st') =>
      st' = {| cacheBuster := (cacheBuster st + 1)%Z;
               proxy_iframes := (proxy_iframes st ++ [src])%list |}
  | (_, st') => st' = st
  end.
Proof.
  unfold postMessage.
  destruct (negb (truthy_str targetHost)); [reflexivity|].
  destruct targetWindow as [tw|]; [|reflexivity].
  set (host := getDomainFromUrl _).
  destruct (native_step env tw message host) as [r|] eqn:En.
  { destruct r; try reflexivity. exfalso. unfold native_step in En.
    destruct (browserSupportsPostMessage env); [|discriminate].
    destruct (native_postMessage env tw message host) as [|[n|]];
      [|destruct (Z.eqb n E_NOINTERFACE)|]; discriminate. }
  destruct (hook_step env tw message host) as [r|] eqn:Eh.
  { destruct r; try reflexivity. exfalso. unfold hook_step in Eh.
    destruct (hook_of env tw); [destruct (hook_returns env tw message host)|..];
      discriminate. }
  unfold proxy_step.
  destruct (serializeWindowReference _ _ _ _); reflexivity.
Qed.

(** A native [postMessage] exception is re-thrown, with no fallback,
    unless its [number] is IE's E_NOINTERFACE; an exception without
    [number] (as every exception outside IE) is re-thrown too. *)
Theorem native_exception_rethrown (fuel : nat) (env : send_env) (st : page_state)
  (message host : string) (tw : win) (targetWindowName : option string)
  (number : option Z) :
  truthy_str (Some host) = true ->
  browserSupportsPostMessage env = true ->
  native_postMessage env tw message (getDomainFromUrl host) = NativeThrows number ->
  number <> Some E_NOINTERFACE ->
  postMessage fuel env st message (Some host) (Some tw) targetWindowName
  = (Thrown (ErrNative number), st).
Proof.
  intros Ht Hb Hn Hnum. unfold postMessage. rewrite Ht. simpl negb. cbv iota zeta.
  unfold native_step. rewrite Hb, Hn.
  destruct number as [n|]; [|reflexivity].
  destruct (Z.eqb_spec n E_NOINTERFACE) as [->|]; [congruence|reflexivity].
Qed.

Lemma native_exception_rethrown_witness :
  postMessage 10 syntax_error_env initial_page "hi" (Some "b.com") (Some 1) None
  = (Thrown (ErrNative None), initial_page).
Proof.
  apply (native_exception_rethrown 10 syntax_error_env initial_page "hi" "b.com" 1 None None);
    (reflexivity || discriminate).
Defined.

(** When the native call is missing or fails with E_NOINTERFACE, and the
    target's hook is unreachable or throws (an exception of a callback
    run by the hook included, caught by the empty [catch]), the message
    is sent again through the proxy iframe. *)
Theorem hook_failure_uses_proxy (fuel : nat) (env : send_env) (st : page_state)
  (message host : string) (tw : win) (targetWindowName : option string) :
  truthy_str (Some host) = true ->
  (browserSupportsPostMessage env = false \/
   native_postMessage env tw message (getDomainFromUrl host)
   = NativeThrows (Some E_NOINTERFACE)) ->
  (hook_of env tw <> HookFunction \/
   hook_returns env tw message (getDomainFromUrl host) = false) ->
  postMessage fuel env st message (Some host) (Some tw) targetWindowName
  = proxy_step fuel env st
      (match targetWindowName with
       | Some n => if truthy_str (Some n) then TName n else TWindow tw
       | None => TWindow tw
       end) message (getDomainFromUrl host).
Proof.
  intros Ht Hn Hh. unfold postMessage. rewrite Ht. simpl negb. cbv iota zeta.
  replace (native_step env tw message (getDomainFromUrl host)) with (@None send_outcome).
  2:{ unfold native_step. destruct Hn as [Hn|Hn].
      - rewrite Hn. reflexivity.
      - destruct (browserSupportsPostMessage env); [|reflexivity].
        rewrite Hn. reflexivity. }
  replace (hook_step env tw message (getDomainFromUrl host)) with (@None send_outcome).
  2:{ unfold hook_step. destruct Hh as [Hh|Hh].
      - destruct (hook_of env tw); congruence.
      - rewrite Hh. destruct (hook_of env tw); reflexivity. }
  reflexivity.
Qed.

Lemma hook_failure_uses_proxy_witness :
  postMessage 10 hook_throws_env initial_page "hi" (Some "http://b.com") (Some 1) None
  = proxy_step 10 hook_throws_env initial_page (TWindow 1) "hi" "http://b.com".
Proof.
  apply (hook_failure_uses_proxy 10 hook_throws_env initial_page "hi" "http://b.com" 1 None);
    [reflexivity|right; reflexivity|right; reflexivity].
Defined.

(** The token [encodeURIComponent] writes for one byte. *)
Definition tok (c : ascii) : uri_token :=
  if uri_unreserved c then TChar c else TByte (nat_of_ascii c).

Fixpoint encoded_tokens (s : string) : list uri_token :=
  match s with
  | EmptyString => []
  | String c s' => tok c :: encoded_tokens s'
  end.

Lemma uri_tokens_encode_char (c : ascii) (s : string) :
  uri_tokens (encodeURIComponent (String c s))
  = option_map (cons (tok c)) (uri_tokens (encodeURIComponent s)).
Proof.
  destruct c as [b0 b1 b2 b3 b4 b5 b6 b7];
  destruct b0, b1, b2, b3, b4, b5, b6, b7; reflexivity.
Qed.

Lemma uri_tokens_encode (s : string) :
  uri_tokens (encodeURIComponent s) = Some (encoded_tokens s).
Proof.
  induction s as [|c s IH]; [reflexivity|].
  rewrite uri_tokens_encode_char, IH. reflexivity.
Qed.

Lemma uri_unreserved_ascii (c : ascii) :
  uri_unreserved c = true -> Nat.ltb (nat_of_ascii c) 128 = true.
Proof.
  destruct c as [b0 b1 b2 b3 b4 b5 b6 b7];
  destruct b0, b1, b2, b3, b4, b5, b6, b7; intro H;
    try discriminate H; reflexivity.
Qed.

Lemma tok_high (c : ascii) :
  Nat.ltb (nat_of_ascii c) 128 = false -> tok c = TByte (nat_of_ascii c).
Proof.
  intro H. unfold tok. destruct (uri_unreserved c) eqn:Hu; [|reflexivity].
  rewrite (uri_unreserved_ascii c Hu) in H. discriminate.
Qed.

Lemma in_range_high (lo hi b : nat) :
  128 <= lo -> in_range lo hi b = true -> Nat.ltb b 128 = false.
Proof.
  unfold in_range. intros Hlo H. apply andb_true_iff in H as [H _].
  apply Nat.leb_le in H. apply Nat.ltb_ge. lia.
Qed.

Lemma utf8_lead_high (b : nat) (k lo hi : nat) :
  utf8_lead b = Some (k, lo, hi) -> 128 <= lo.
Proof.
  unfold utf8_lead. intro H.
  repeat match type of H with
  | context [if ?c then _ else _] => destruct c
  end; try discriminate H; injection H as <- <- <-; lia.
Qed.

Lemma ascii_of_byte (c : ascii) : ascii_of_nat (nat_of_ascii c) = c.
Proof. apply ascii_nat_embedding. Qed.

(** [decodeURIComponent] after [encodeURIComponent] gives back every
    valid UTF-8 byte string. *)
Lemma utf8_of_encoded (n : nat) :
  forall s, String.length s <= n -> utf8_valid s = true ->
  utf8_of_tokens (encoded_tokens s) = Some s.
Proof.
  induction n as [|n IH]; intros s Hl Hv;
    (destruct s as [|c s]; [reflexivity|]); [simpl in Hl; lia|].
  simpl in Hl. cbn [utf8_valid] in Hv. cbn [encoded_tokens].
  destruct (Nat.ltb (nat_of_ascii c) 128) eqn:Hlt.
  - unfold tok. destruct (uri_unreserved c).
    + cbn [utf8_of_tokens]. rewrite (IH s ltac:(lia) Hv). reflexivity.
    + cbn [utf8_of_tokens]. rewrite Hlt, ascii_of_byte, (IH s ltac:(lia) Hv).
      reflexivity.
  - rewrite (tok_high c Hlt). cbn [utf8_of_tokens]. rewrite Hlt.
    destruct (utf8_lead (nat_of_ascii c)) as [[[k lo] hi]|] eqn:Hld;
      [|discriminate Hv].
    pose proof (utf8_lead_high _ _ _ _ Hld) as Hlo.
    destruct k as [|[|[|[|k]]]]; try discriminate Hv.
    + destruct s as [|c1 s1]; [discriminate Hv|].
      apply andb_true_iff in Hv as [H1 Hv].
      cbn [encoded_tokens]. rewrite (tok_high c1 (in_range_high _ _ _ Hlo H1)).
      rewrite H1. simpl in Hl.
      rewrite !ascii_of_byte, (IH s1 ltac:(lia) Hv). reflexivity.
    + destruct s as [|c1 [|c2 s2]]; try discriminate Hv.
      apply andb_true_iff in Hv as [Hv Hv2]. apply andb_true_iff in Hv as [H1 H2].
      cbn [encoded_tokens].
      rewrite (tok_high c1 (in_range_high _ _ _ Hlo H1)).
      rewrite (tok_high c2 (in_range_high 128 191 _ (le_n _) H2)).
      rewrite H1, H2. simpl in Hl.
      rewrite !ascii_of_byte, (IH s2 ltac:(lia) Hv2). reflexivity.
    + destruct s as [|c1 [|c2 [|c3 s3]]]; try discriminate Hv.
      apply andb_true_iff in Hv as [Hv Hv3]. apply andb_true_iff in Hv as [Hv H3].
      apply andb_true_iff in Hv as [H1 H2].
      cbn [encoded_tokens].
      rewrite (tok_high c1 (in_range_high _ _ _ Hlo H1)).
      rewrite (tok_high c2 (in_range_high 128 191 _ (le_n _) H2)).
      rewrite (tok_high c3 (in_range_high 128 191 _ (le_n _) H3)).
      rewrite H1, H2, H3. simpl in Hl.
      rewrite !ascii_of_byte, (IH s3 ltac:(lia) Hv3). reflexivity.
Qed.

Lemma decode_encode (s : string) :
  utf8_valid s = true -> decodeURIComponent (encodeURIComponent s) = Some s.
Proof.
  intro Hv. unfold decodeURIComponent. rewrite uri_tokens_encode.
  exact (utf8_of_encoded (String.length s) s (le_n _) Hv).
Qed.

Lemma encode_cons (c : ascii) (s : string) :
  encodeURIComponent (String c s) = encodeURIComponent (String c "") ++ encodeURIComponent s.
Proof. simpl. destruct (uri_unreserved c); reflexivity. Qed.

Lemma encode_no_amp_char (c : ascii) :
  contains_char "&"%char (encodeURIComponent (String c "")) = false.
Proof.
  destruct c as [b0 b1 b2 b3 b4 b5 b6 b7];
  destruct b0, b1, b2, b3, b4, b5, b6, b7; reflexivity.
Qed.

Lemma encode_no_amp (s : string) :
  contains_char "&"%char (encodeURIComponent s) = false.
Proof.
  induction s as [|c s IH]; [reflexivity|].
  rewrite encode_cons, contains_char_app, encode_no_amp_char, IH. reflexivity.
Qed.

(** The proxy iframe's [src] ends with ["&"] and the encoded message; the
    encoded message contains no ['&'], so it is the last ['&']-separated
    field, and [decodeURIComponent] (as in [__receiveMessageHook]) gives
    the message back unchanged when it is the UTF-8 encoding of a
    JavaScript string. *)
Theorem proxy_src_carries_message (fuel : nat) (env : send_env) (st st' : page_state)
  (message : string) (targetHost : option string) (targetWindow : option win)
  (targetWindowName : option string) (src : string) :
  postMessage fuel env st message targetHost targetWindow targetWindowName
  = (SentProxy src, st') ->
  utf8_valid message = true ->
  exists before, src = before ++ "&" ++ encodeURIComponent message /\
    contains_char "&"%char (encodeURIComponent message) = false /\
    decodeURIComponent (encodeURIComponent message) = Some message.
Proof.
  intros H Hv.
  assert (Hsrc : exists before, src = before ++ "&" ++ encodeURIComponent message).
  { unfold postMessage in H.
    destruct (negb (truthy_str targetHost)); [discriminate|].
    destruct targetWindow as [tw|]; [|discriminate].
    destruct (native_step _ _ _ _) as [r|] eqn:En.
    { exfalso. injection H as -> _. unfold native_step in En.
      destruct (browserSupportsPostMessage env); [|discriminate].
      destruct (native_postMessage _ _ _ _) as [|[n|]];
        [|destruct (Z.eqb n E_NOINTERFACE)|]; discriminate. }
    destruct (hook_step _ _ _ _) as [r|] eqn:Eh.
    { exfalso. injection H as -> _. unfold hook_step in Eh.
      destruct (hook_of _ _); [destruct (hook_returns _ _ _ _)|..]; discriminate. }
    unfold proxy_step in H.
    destruct (serializeWindowReference _ _ _ _) as [ref|]; [|discriminate].
    injection H as <- _.
    exists (getDomainFromUrl match targetHost with Some h => h | None => "" end ++
            proxy_path ++ string_of_Z (now env) ++ string_of_Z (cacheBuster st) ++
            "&" ++ ref ++ "&" ++
            getDomainFromUrl (location_href env)).
    rewrite <- !str_app_assoc. reflexivity. }
  destruct Hsrc as [before Hsrc]. exists before.
  split; [exact Hsrc|split; [apply encode_no_amp|apply decode_encode; exact Hv]].
Qed.

Lemma proxy_src_carries_message_witness :
  exists before,
    "http://b.com/vp/JS-Lib/jQuery/plugins/postmessage.htm#10001&o&http://a.com&a%20b%26c"
    = before ++ "&" ++ encodeURIComponent "a b&c" /\
    contains_char "&"%char (encodeURIComponent "a b&c") = false /\
    decodeURIComponent (encodeURIComponent "a b&c") = Some "a b&c".
Proof.
  apply (proxy_src_carries_message 10 legacy_env initial_page
    {| cacheBuster := 2;
       proxy_iframes :=
         ["http://b.com/vp/JS-Lib/jQuery/plugins/postmessage.htm#10001&o&http://a.com&a%20b%26c"] |}
    "a b&c" (Some "http://b.com/x") (Some 1) None).
  all: vm_compute; reflexivity.
Defined.

(* ------------------------------------------------------------------ *)
(** ** getDomainFromUrl *)

Lemma span_app (p : ascii -> bool) (a b : string) :
  (forall x, In x (list_ascii_of_string a) -> p x = true) ->
  match b with EmptyString => True | String x _ => p x = false end ->
  span p (a ++ b) = (a, b).
Proof.
  intros Ha Hb. induction a as [|x a IH]; simpl.
  - destruct b as [|x b]; [reflexivity|]. simpl. rewrite Hb. reflexivity.
  - rewrite (Ha x (or_introl eq_refl)).
    rewrite IH by (intros y Hy; apply Ha; right; exact Hy). reflexivity.
Qed.

Lemma not_contains_all (c : ascii) (s : string) :
  contains_char c s = false ->
  forall x, In x (list_ascii_of_string s) -> negb (Ascii.eqb x c) = true.
Proof.
  induction s as [|y s IH]; simpl; intros H x Hx; [contradiction|].
  apply orb_false_iff in H as [H1 H2].
  destruct Hx as [<-|Hx]; [|apply IH; assumption].
  rewrite Ascii.eqb_sym, H1. reflexivity.
Qed.

Lemma substring_zero (n : nat) (s : string) : substring n 0 s = "".
Proof. revert n. induction s as [|x s IH]; intro n; destruct n; simpl; auto. Qed.

Lemma regex_replace_domain_eq (pre s : string) :
  regex_replace_domain pre s =
  match domain_match_at s with
  | Some (g1, n) => pre ++ g1 ++ substring n (String.length s - n) s
  | None =>
    match s with
    | EmptyString => pre
    | String c s' => regex_replace_domain (pre ++ String c "") s'
    end
  end.
Proof. destruct s; reflexivity. Qed.

(** [getDomainFromUrl] on a URL [scheme://host] followed by an empty
    path or one starting with ['/'] (with no line terminator: LF, CR,
    U+2028 or U+2029) returns
    [scheme://host]: the path, query and fragment are dropped, a port is
    kept. *)
Theorem getDomainFromUrl_wellformed (scheme host path : string) :
  scheme <> "" -> contains_char ":"%char scheme = false ->
  host <> "" -> contains_char "/"%char host = false ->
  match path with EmptyString => True | String x _ => x = "/"%char end ->
  contains_char "010"%char path = false -> contains_char "013"%char path = false ->
  contains_line_separator path = false ->
  getDomainFromUrl (scheme ++ "://" ++ host ++ path) = scheme ++ "://" ++ host.
Proof.
  intros Hs Hsc Hh Hhc Hp Hp1 Hp2 Hp3.
  unfold getDomainFromUrl. rewrite regex_replace_domain_eq.
  unfold domain_match_at.
  rewrite span_app; [|apply not_contains_all, Hsc|reflexivity].
  apply String.eqb_neq in Hs. rewrite Hs.
  cbn [String.append String.prefix negb].
  replace (prefix "" (host ++ path)) with true by (destruct (host ++ path); reflexivity).
  repeat match goal with |- context [ascii_dec ?a ?a] =>
    destruct (ascii_dec a a) as [_|n]; [|congruence] end.
  simpl negb. cbv iota.
  replace (String.length (String ":" (String "/" (String "/" (host ++ path)))) - 3)
    with (String.length (host ++ path)) by (simpl; lia).
  simpl substring. rewrite substring_whole.
  rewrite span_app; [|apply not_contains_all, Hhc|destruct path; [exact I|subst; reflexivity]].
  apply String.eqb_neq in Hh. rewrite Hh.
  assert (Hspan : dot_star path = path).
  { clear -Hp1 Hp2 Hp3. induction path as [|y path IH]; [reflexivity|].
    cbn [contains_char contains_line_separator] in Hp1, Hp2, Hp3.
    apply orb_false_iff in Hp1 as [Hy1 Hp1].
    apply orb_false_iff in Hp2 as [Hy2 Hp2].
    apply orb_false_iff in Hp3 as [Hy3 Hp3].
    change (dot_star (String y path)) with
      (if is_line_terminator y || starts_with_line_separator (String y path) then ""
       else String y (dot_star path)).
    unfold is_line_terminator. rewrite Ascii.eqb_sym, Hy1, Ascii.eqb_sym, Hy2, Hy3.
    simpl. rewrite IH by assumption. reflexivity. }
  rewrite Hspan. cbv iota beta zeta.
  assert (Hl : String.length (scheme ++ String ":" (String "/" (String "/" (host ++ path))))
             = String.length (scheme ++ String ":" (String "/" (String "/" host)))
               + String.length path)
    by (rewrite !str_length_app; simpl; rewrite str_length_app; lia).
  rewrite Hl, Nat.sub_diag, substring_zero, str_app_nil_r. reflexivity.
Qed.

Lemma getDomainFromUrl_wellformed_witness :
  getDomainFromUrl ("http" ++ "://" ++ "a.com:8080" ++ "/x?y=http://z") = "http" ++ "://" ++ "a.com:8080".
Proof.
  apply getDomainFromUrl_wellformed; (discriminate || reflexivity).
Defined.

Lemma domain_match_no_colon (s : string) :
  contains_char ":"%char s = false -> domain_match_at s = None.
Proof.
  intro H. unfold domain_match_at.
  pose proof (span_app (fun c => negb (Ascii.eqb c ":")) s "") as Hs.
  rewrite str_app_nil_r in Hs. rewrite Hs by (apply not_contains_all, H || exact I).
  destruct (String.eqb s ""); reflexivity.
Qed.

Lemma regex_replace_no_colon (pre url : string) :
  contains_char ":"%char url = false -> regex_replace_domain pre url = pre ++ url.
Proof.
  revert pre. induction url as [|c url IH]; intros pre H.
  - simpl. rewrite str_app_nil_r. reflexivity.
  - rewrite regex_replace_domain_eq, domain_match_no_colon by exact H.
    cbn [contains_char] in H. apply orb_false_iff in H as [_ H].
    rewrite IH by exact H. rewrite <- str_app_assoc. reflexivity.
Qed.

(** A [targetHost] without [':'] (the wildcard ["*"], a bare host name)
    is passed on unchanged by [getDomainFromUrl]. *)
Theorem getDomainFromUrl_no_colon (url : string) :
  contains_char ":"%char url = false -> getDomainFromUrl url = url.
Proof. intro H. exact (regex_replace_no_colon "" url H). Qed.

Lemma getDomainFromUrl_no_colon_witness : getDomainFromUrl "*" = "*".
Proof. apply getDomainFromUrl_no_colon. reflexivity. Defined.

(* ------------------------------------------------------------------ *)
(** ** window.__receiveMessageHook *)

Lemma hook_dispatch (w : jq_window) (hs : list handler_entry) (message origin d : string) :
  message_handlers w = Some hs ->
  decodeURIComponent message = Some d ->
  receiveMessageHook w message origin
  = inr (map (fun h => (h_callback h,
                        {| rec_data := if truthy_str (Some d) then Some d else None;
                           rec_origin := None |}))
             (filter (fun h => isOriginMatch (h_rule h) None) hs)).
Proof.
  intros Hw Hd. unfold receiveMessageHook. rewrite Hd. f_equal.
  unfold jq_trigger, jq_dispatch. rewrite Hw. clear Hw.
  induction hs as [|h hs IH]; [reflexivity|].
  change (flat_map ?f (h :: hs)) with (f h ++ flat_map f hs)%list.
  rewrite IH.
  unfold message_handler, checked_origin, reported_origin, event_origin, event_data,
    triggered_event.
  simpl. destruct (isOriginMatch (h_rule h) None); reflexivity.
Qed.

(** A message delivered through [__receiveMessageHook] reaches exactly
    the handlers whose rule accepts an undefined origin, in order; the
    [origin] argument of the hook is dropped: every callback gets
    [origin] undefined, and [data] undefined when the decoded message is
    empty. *)
Theorem hook_delivery (w : jq_window) (hs : list handler_entry)
  (message origin d : string) :
  message_handlers w = Some hs ->
  decodeURIComponent message = Some d ->
  receiveMessageHook w message origin
  = inr (map (fun h => (h_callback h,
                        {| rec_data := if truthy_str (Some d) then Some d else None;
                           rec_origin := None |}))
             (filter (fun h => isOriginMatch (h_rule h) None) hs)).
Proof. exact (hook_dispatch w hs message origin d). Qed.

Lemma hook_delivery_witness :
  receiveMessageHook mixed_page "hi%21" "http://a.com"
  = inr [(1, {| rec_data := Some "hi!"; rec_origin := None |})].
Proof.
  rewrite (hook_delivery mixed_page _ "hi%21" "http://a.com" "hi!" eq_refl eq_refl).
  reflexivity.
Defined.

(** On any page, handlers registered with a specific origin string (not
    ["*"]) are never called through [__receiveMessageHook]: every callback
    it calls belongs to a handler of the page whose rule is not such a
    string. *)
Theorem hook_skips_origin_handlers (w : jq_window) (hs : list handler_entry)
  (message origin : string) (l : list (callback_id * message_record)) :
  message_handlers w = Some hs ->
  receiveMessageHook w message origin = inr l ->
  Forall (fun inv => exists h, In h hs /\ h_callback h = fst inv /\
                       ~ (exists pat, h_rule h = RString pat /\ pat <> "*")) l.
Proof.
  intros Hw Hl.
  destruct (decodeURIComponent message) as [d|] eqn:Hd.
  - rewrite (hook_dispatch w hs message origin d Hw Hd) in Hl.
    injection Hl as <-. apply Forall_forall. intros inv Hin.
    apply in_map_iff in Hin as [h [<- Hin]].
    apply filter_In in Hin as [Hin Hm].
    exists h. split; [exact Hin|split; [reflexivity|]].
    intros [pat [Hp Hs]]. rewrite Hp in Hm. simpl in Hm.
    apply String.eqb_neq in Hs. rewrite Hs in Hm. discriminate.
  - unfold receiveMessageHook in Hl. rewrite Hd in Hl. discriminate.
Qed.

Lemma hook_skips_origin_handlers_witness :
  Forall (fun inv => exists h,
            In h [{| h_callback := 1; h_rule := RString "*" |};
                  {| h_callback := 2; h_rule := RString "http://a.com" |}] /\
            h_callback h = fst inv /\
            ~ (exists pat, h_rule h = RString pat /\ pat <> "*"))
    [(1, {| rec_data := Some "hi"; rec_origin := None |})].
Proof.
  apply (hook_skips_origin_handlers
    {| message_handlers := Some [{| h_callback := 1; h_rule := RString "*" |};
                                 {| h_callback := 2; h_rule := RString "http://a.com" |}];
       native_listeners := 1 |} _ "hi" "http://a.com"); reflexivity.
Defined.

(* ------------------------------------------------------------------ *)
(** ** Window references *)

Lemma forin_frames_found (guard : instanceof_result) (steps : list forin_step)
  (t : win) (k : string) :
  forin_frames guard steps t = FrameFound k -> In (ForInKey k (ReadWindow t)) steps.
Proof.
  induction steps as [|[key v|n] steps IH]; simpl; intro H; try discriminate.
  destruct (frame_key_test guard v t) as [[|]|n] eqn:E.
  - injection H as <-. left. f_equal. unfold frame_key_test in E.
    destruct guard; try discriminate. destruct v as [x| |]; try discriminate.
    injection E as E. apply Nat.eqb_eq in E. subst. reflexivity.
  - right. apply IH, H.
  - destruct (number_is n E_ACCESSDENIED); [right; apply IH, H|discriminate].
Qed.

Lemma direct_frame_check_found (g : window_graph) (w t : win) (k : string) :
  direct_frame_check g w t = FrameFound k ->
  In (ForInKey k (ReadWindow t)) (frames_forin g w).
Proof.
  unfold direct_frame_check. destruct (Nat.ltb 0 _); [|discriminate].
  destruct (forin_frames _ _ t) as [k'| |n] eqn:E; intro H.
  - injection H as <-. eapply forin_frames_found. exact E.
  - discriminate.
  - destruct (number_is n E_UNDEFINED); discriminate.
Qed.

Lemma win_is_true (o : option win) (t : win) : win_is o t = true -> o = Some t.
Proof. destruct o as [x|]; simpl; [intro H; apply Nat.eqb_eq in H; subst; reflexivity|discriminate]. Qed.

Lemma transverseLevel_reaches (fuel : nat) :
  forall g w t l ref, transverseLevel fuel g w t l = Done (Some ref) -> reachable g w t.
Proof.
  induction fuel as [|fuel IH]; intros g w t l ref H; [discriminate|].
  simpl in H.
  destruct (direct_frame_check g w t) as [k| |n] eqn:Ef; [|clear Ef|discriminate].
  { eapply reach_prop. apply direct_frame_check_found. exact Ef. }
  destruct (win_is (parent g w) t) eqn:Ep.
  { apply reach_parent, win_is_true, Ep. }
  destruct (win_is (opener g w) t) eqn:Eo.
  { apply reach_opener, win_is_true, Eo. }
  destruct (level_ge4 l); [discriminate|].
  match type of H with context [?F (frames g w) 0] =>
    assert (Hl : forall fs i r, F fs i = Done (Some r) -> exists f, In f fs /\ reachable g f t);
    [|destruct (F (frames g w) 0) as [|n|[r|]] eqn:El]
  end.
  { induction fs as [|f fs IHfs]; intros i r Hr; [discriminate|].
    simpl in Hr.
    destruct (transverseLevel fuel g f t (level_succ l)) as [|n|[r'|]] eqn:E;
      [discriminate|discriminate| |].
    - exists f. split; [left; reflexivity|eapply IH; exact E].
    - destruct (IHfs _ _ Hr) as [f' [Hin Hreach]].
      exists f'. split; [right; exact Hin|exact Hreach]. }
  - discriminate.
  - discriminate.
  - destruct (Hl _ _ _ El) as [f [Hin Hreach]].
    eapply reach_trans; [apply reach_frame, Hin|exact Hreach].
  - destruct (parent g w) as [p|] eqn:Hp.
    + destruct (negb (p =? w)%nat).
      * destruct (transverseLevel fuel g p t (level_succ l)) as [|n|[r|]] eqn:E.
        -- discriminate.
        -- discriminate.
        -- eapply reach_trans; [apply reach_parent, Hp|eapply IH; exact E].
        -- destruct (opener g w) as [o|] eqn:Ho; [|discriminate].
           destruct (negb (o =? w)%nat); [|discriminate].
           destruct (transverseLevel fuel g o t (level_succ l)) as [|?|[r'|]] eqn:E';
             try discriminate.
           eapply reach_trans; [apply reach_opener, Ho|eapply IH; exact E'].
      * destruct (opener g w) as [o|] eqn:Ho; [|discriminate].
        destruct (negb (o =? w)%nat); [|discriminate].
        destruct (transverseLevel fuel g o t (level_succ l)) as [|?|[r'|]] eqn:E';
          try discriminate.
        eapply reach_trans; [apply reach_opener, Ho|eapply IH; exact E'].
    + destruct (opener g w) as [o|] eqn:Ho; [|discriminate].
      destruct (negb (o =? w)%nat); [|discriminate].
      destruct (transverseLevel fuel g o t (level_succ l)) as [|?|[r'|]] eqn:E';
        try discriminate.
      eapply reach_trans; [apply reach_opener, Ho|eapply IH; exact E'].
Qed.

(** A reference produced by [serializeWindowReference] for a target
    window always names a window reachable from the current one through
    [frames], [parent], [opener] and the window-valued properties that
    [for (var frame in window.frames)] enumerates: on [popup_graph] the
    global variable [popup] gives ["f,popup"] for a window that no
    [frames], [parent] or [opener] link reaches. *)
Theorem serialize_reference_reachable (fuel : nat) (g : window_graph) (cur t : win)
  (ref : string) :
  serializeWindowReference fuel g cur (TWindow t) = inl ref -> reachable g cur t.
Proof.
  unfold serializeWindowReference. intro H.
  destruct (Nat.eqb cur t); [discriminate|].
  destruct (parent g cur) as [p|] eqn:Hp.
  { destruct (negb (Nat.eqb p cur) && Nat.eqb p t) eqn:E.
    - apply andb_true_iff in E as [_ E]. apply Nat.eqb_eq in E. subst.
      apply reach_parent, Hp.
    - clear E. destruct (opener g cur) as [o|] eqn:Ho.
      + destruct (negb (Nat.eqb o cur) && Nat.eqb o t) eqn:E'.
        * apply andb_true_iff in E' as [_ E']. apply Nat.eqb_eq in E'. subst.
          apply reach_opener, Ho.
        * destruct (transverseLevel fuel g cur t LUndefined) as [|?|[r|]] eqn:Et;
            try discriminate.
          eapply transverseLevel_reaches; exact Et.
      + destruct (transverseLevel fuel g cur t LUndefined) as [|?|[r|]] eqn:Et;
          try discriminate.
        eapply transverseLevel_reaches; exact Et. }
  destruct (opener g cur) as [o|] eqn:Ho.
  - destruct (negb (Nat.eqb o cur) && Nat.eqb o t) eqn:E'.
    + apply andb_true_iff in E' as [_ E']. apply Nat.eqb_eq in E'. subst.
      apply reach_opener, Ho.
    + destruct (transverseLevel fuel g cur t LUndefined) as [|?|[r|]] eqn:Et;
        try discriminate.
      eapply transverseLevel_reaches; exact Et.
  - destruct (transverseLevel fuel g cur t LUndefined) as [|?|[r|]] eqn:Et;
      try discriminate.
    eapply transverseLevel_reaches; exact Et.
Qed.

Lemma serialize_reference_reachable_witness :
  serializeWindowReference 10 popup_graph 0 (TWindow 5) = inl "f,popup" /\
  reachable popup_graph 0 5.
Proof.
  split; [reflexivity|].
  apply (serialize_reference_reachable 10 popup_graph 0 5 "f,popup"). reflexivity.
Defined.

(* ------------------------------------------------------------------ *)
(** ** Items $.parseDelimitedString skips *)

Lemma indexOf_single_absent (e : ascii) (s : string) :
  contains_char e s = false -> js_indexOf s (String e "") = None.
Proof.
  unfold js_indexOf. induction s as [|b s IH]; intro H; [reflexivity|].
  cbn [contains_char] in H. apply orb_false_iff in H as [Hb H].
  rewrite index_single_step, Hb, IH by exact H. reflexivity.
Qed.

Lemma parse_pair_skip (e : ascii) (kd vd : string -> string) (ret : js_object)
  (item : string) :
  (contains_char e item = false \/ exists v, item = String e v) ->
  parse_pair (String e "") kd vd ret item = ret.
Proof.
  intro H. unfold parse_pair.
  destruct (Nat.ltb 0 (String.length item)); [|reflexivity].
  destruct H as [H|[v ->]].
  - rewrite indexOf_single_absent by exact H. reflexivity.
  - unfold js_indexOf. rewrite index_single_step, Ascii.eqb_refl. reflexivity.
Qed.

Lemma parse_as_fold (s itemDelimiter pairDelimiter : string) :
  parseDelimitedString (Some s) itemDelimiter pairDelimiter None None
  = fold_left (parse_pair pairDelimiter (fun s => s) (fun s => s))
      (js_split s itemDelimiter) [].
Proof.
  unfold parseDelimitedString. simpl coder_or_identity. cbv zeta.
  destruct s as [|a s]; [|reflexivity].
  unfold js_split. destruct (String.eqb itemDelimiter ""); reflexivity.
Qed.

(** An item with no pair delimiter, or one starting with it (an empty
    key), changes nothing: appending it, even to an empty string, gives
    the object of the string without it.  Doubled item delimiters are
    therefore harmless. *)
Theorem parse_skips_item (c e : ascii) (s1 item : string) :
  contains_char c item = false ->
  (contains_char e item = false \/ exists v, item = String e v) ->
  parseDelimitedString (Some (s1 ++ String c item)) (String c "") (String e "") None None
  = parseDelimitedString (Some s1) (String c "") (String e "") None None.
Proof.
  intros Hc He. rewrite !parse_as_fold.
  unfold js_split. simpl (String.eqb (String c "") ""). cbv iota.
  rewrite split_go_app, (split_go_no_char c item "") by exact Hc.
  rewrite fold_left_parse_app. simpl (fold_left _ [_] _).
  apply parse_pair_skip, He.
Qed.

Lemma parse_skips_item_witness :
  parseDelimitedString (Some ("a=1" ++ String "&" "=x")) (String "&" "") (String "=" "") None None
  = parseDelimitedString (Some "a=1") (String "&" "") (String "=" "") None None.
Proof.
  apply parse_skips_item; [reflexivity|right; exists "x"; reflexivity].
Defined.

(* ------------------------------------------------------------------ *)
(** ** Named targets *)

(** When the proxy path is taken with a non-empty [targetWindowName],
    the window is not searched for at all: the reference is [":" ++ name]
    whatever [targetWindow] is (the sending window itself included) and
    however deep the search could go, so the call never fails. *)
Theorem named_target_proxy (fuel : nat) (env : send_env) (st : page_state)
  (message host name : string) (tw : win) :
  truthy_str (Some host) = true ->
  native_step env tw message (getDomainFromUrl host) = None ->
  hook_step env tw message (getDomainFromUrl host) = None ->
  truthy_str (Some name) = true ->
  postMessage fuel env st message (Some host) (Some tw) (Some name)
  = (let src := getDomainFromUrl host ++ proxy_path ++
                string_of_Z (now env) ++ string_of_Z (cacheBuster st) ++
                "&" ++ ":" ++ name ++ "&" ++
                getDomainFromUrl (location_href env) ++ "&" ++ encodeURIComponent message in
     (SentProxy src, {| cacheBuster := (cacheBuster st + 1)%Z;
                        proxy_iframes := (proxy_iframes st ++ [src])%list |})).
Proof.
  intros Ht Hn Hh Hname. unfold postMessage. rewrite Ht. simpl negb. cbv iota zeta.
  rewrite Hn, Hh, Hname. reflexivity.
Qed.

Lemma named_target_proxy_witness :
  postMessage 0 legacy_env initial_page "hi" (Some "http://b.com") (Some 0) (Some "child")
  = (SentProxy "http://b.com/vp/JS-Lib/jQuery/plugins/postmessage.htm#10001&:child&http://a.com&hi",
     {| cacheBuster := 2%Z;
        proxy_iframes :=
          ["http://b.com/vp/JS-Lib/jQuery/plugins/postmessage.htm#10001&:child&http://a.com&hi"] |}).
Proof.
  refine (eq_trans (named_target_proxy 0 legacy_env initial_page "hi" "http://b.com" "child" 0
    eq_refl eq_refl eq_refl eq_refl) _).
  reflexivity.
Defined.
